(** * Sales dashboard: consistency streaks and basket pairs

    A shallow embedding of the two computations of [Category_edit.py]
    that are more than glue:

    - the consistency streak of tab 2 (lines 189-200): [pivot_monthly],
      [latest_months] and the loop that fills the dict [streaks];
    - the market basket of tab 3 (lines 228-241): [order_counts],
      [multi_item_orders], [df_basket], [baskets], the [Counter]
      [pair_counts] and the table [df_pairs];

    and of the code around them: loading and merging, the sidebar filter,
    the sums of tab 1 and the import page.

    Data frames are lists of typed rows, and a column has the type that
    [read_csv] infers for it.  Strings are byte strings and are compared
    byte by byte, which on UTF-8 text is Python's code point order.  The
    amount columns ([subtotal], [total_amount], [quantity]) are int64
    columns, the dtype of a column whose cells are all whole numbers:
    their sums are computed in 64 bits and wrap around.  A column of
    amounts with a decimal point is a float64 column and is not modelled
    here.  A cell that is missing is NaN, [None]. *)

From Stdlib Require Import ZArith String Ascii PrimFloat.
From stdpp Require Import base numbers list sorting gmap strings.

#[local] Set Warnings "-clear-no-such-hyp,-inexact-float".

Local Open Scope Z_scope.
Local Open Scope nat_scope.

(** ** Python's order on [str] *)

Module Str.

(** [a < b] and [a <= b] on strings, as propositions. *)
Definition lt (a b : string) : Prop := String.ltb a b = true.
Definition le (a b : string) : Prop := String.leb a b = true.

Definition gt (a b : string) : Prop := lt b a.

#[global] Instance lt_dec a b : Decision (lt a b).
Proof. unfold lt. apply _. Defined.
#[global] Instance le_dec a b : Decision (le a b).
Proof. unfold le. apply _. Defined.
#[global] Instance gt_dec a b : Decision (gt a b).
Proof. unfold gt. apply _. Defined.

(** Tuples of two strings compare component by component. *)
Definition pair_le (p q : string * string) : Prop :=
  lt p.1 q.1 ∨ (p.1 = q.1 ∧ le p.2 q.2).

#[global] Instance pair_le_dec p q : Decision (pair_le p q).
Proof. unfold pair_le. apply _. Defined.

End Str.

(** ** [sorted] and [unique] *)

Section Sorted.
Context {A : Type} (before : A → A → Prop) `{!∀ x y, Decision (before x y)}.

(** [insert_stable x l]: [x] stood in front of every element of [l] in
    the input; it moves right only past the elements that have to come
    strictly before it. *)
Fixpoint insert_stable (x : A) (l : list A) : list A :=
  match l with
  | [] => [x]
  | y :: l' =>
      if decide (before y x) then y :: insert_stable x l' else x :: y :: l'
  end.

(** Python's [sorted]: a stable sort.  [before y x] is the strict
    comparison the sort asks for: [y < x] for a plain sort,
    [key x < key y] with [reverse=True]. *)
Definition sorted (l : list A) : list A := foldr insert_stable [] l.

(** [x] may stand in front of [y] in the output. *)
Definition may_precede (x y : A) : Prop := ¬ before y x.

End Sorted.

(** [Series.unique()]: the distinct values, in order of first
    appearance. *)
Fixpoint unique {A} `{EqDecision A} (l : list A) : list A :=
  match l with
  | [] => []
  | x :: l' => x :: filter (λ y, y ≠ x) (unique l')
  end.

(** ** The dtype of a key column

    [read_csv] leaves the type of a column to its cells: a column whose
    cells are all whole numbers is read as int64, a column with any other
    cell as str.  [groupby] sorts its keys by the order of the dtype, so
    that the orders 9 and 10 come as 9, 10 when the ids are numbers and as
    "10", "9" when they are text.  A key column is modelled by the type
    of its cells together with that order. *)
Class Dtype (K : Type) := mkDtype {
  dtype_eq_dec :: EqDecision K;
  dtype_lt : K → K → Prop;
  dtype_lt_dec :: RelDecision dtype_lt
}.

(** int64 keys in the order of the numbers, str keys in the order of
    [str]. *)
#[global] Instance int64_key : Dtype Z := mkDtype Z _ Z.lt _.
#[global] Instance str_key : Dtype string := mkDtype string _ Str.lt Str.lt_dec.

(** What sorting relies on: [<] is a strict total order.  It is one for
    both dtypes. *)
Class DtypeOrder (K : Type) `{!Dtype K} : Prop := mkDtypeOrder {
  dtype_lt_irrefl : ∀ a : K, ¬ dtype_lt a a;
  dtype_lt_trans : ∀ a b c : K, dtype_lt a b → dtype_lt b c → dtype_lt a c;
  dtype_lt_total : ∀ a b : K, dtype_lt a b ∨ a = b ∨ dtype_lt b a
}.

(** ** int64 amounts *)

Module Int64.

Definition half : Z := 9223372036854775808.
Definition modulus : Z := 18446744073709551616.

(** The values of the type: from -2^63 to 2^63 - 1. *)
Definition in_range (z : Z) : Prop := (- half ≤ z < half)%Z.

#[global] Instance in_range_dec z : Decision (in_range z).
Proof. unfold in_range. apply _. Defined.

(** The number that the 64 bits of [z] stand for. *)
Definition wrap (z : Z) : Z := ((z + half) `mod` modulus - half)%Z.

(** Addition in 64 bits: on overflow the result wraps around, no
    exception is raised. *)
Definition add (a b : Z) : Z := wrap (a + b).

(** [.sum()] of an int64 column or of a group of one: the cells are
    added in 64 bits, in row order; the sum of no cell is 0. *)
Definition sum (cells : list Z) : Z := foldl add 0%Z cells.

End Int64.

(** The sum of the cells as numbers, without wrap-around: what an int64
    sum is meant to be, and is as long as it stays in range. *)
Definition exact_sum (cells : list Z) : Z := foldr Z.add 0%Z cells.

(** ** The merged order table *)

(** One row of [df_merged]: an order line with the month of its order,
    NaN for a line whose [order_id] no order has (line 52 is a left
    merge).  The columns the two computations never read (quantity, unit
    price, platform, category) are left out. *)
Record Row (K : Type) := mkRow {
  order_id : K;
  selling_sku_id : string;
  order_month : option string;
  subtotal : Z
}.

Arguments mkRow {K} _ _ _ _.
Arguments order_id {K} _.
Arguments selling_sku_id {K} _.
Arguments order_month {K} _.
Arguments subtotal {K} _.

Abbreviation DataFrame K := (list (Row K)).

(** The keys of [df.groupby(key)]: the distinct values, sorted in the
    order of their dtype. *)
Definition group_keys {K T : Type} `{!Dtype T} (key : Row K → T)
    (df : DataFrame K) : list T :=
  sorted dtype_lt (unique (key <$> df)).

(** ** Tab 2: the consistency streak (lines 189-200) *)

(** A row of the pivot table: one cell per column label, in column
    order. *)
Abbreviation Series V := (list (string * V)).

Section Streaks.
Context {K : Type} `{!Dtype K}.

(** [groupby] drops a row whose key is NaN: the rows that reach the
    pivot table are those with a month. *)
Definition has_month (r : Row K) : Prop := is_Some (order_month r).

#[global] Instance has_month_dec r : Decision (has_month r).
Proof. unfold has_month. apply _. Defined.

Definition dated (df : DataFrame K) : DataFrame K := filter has_month df.

(** The months of the table, NaN left out. *)
Definition months (df : DataFrame K) : list string := omap order_month df.

(** [groupby(['selling_sku_id', 'order_month'])['subtotal'].sum()], the
    aggregation inside [pivot_table]: one running int64 total per (sku,
    month) that has a row. *)
Definition groupby_sum (df : DataFrame K) : gmap (string * string) Z :=
  foldl (λ agged r,
           match order_month r with
           | Some month =>
               let k := (selling_sku_id r, month) in
               <[k := Int64.add (default 0%Z (agged !! k)) (subtotal r)]> agged
           | None => agged
           end)
        ∅ df.

(** [df.pivot_table(index='selling_sku_id', columns='order_month',
    values='subtotal', aggfunc='sum')]: a row per sku and a column per
    month, both sorted; a cell without rows is NaN ([None]). *)
Definition pivot_table (df : DataFrame K) : list (string * Series (option Z)) :=
  let agged := groupby_sum df in
  let index := group_keys selling_sku_id (dated df) in
  let columns := sorted Str.lt (unique (months df)) in
  (λ sku, (sku, (λ month, (month, agged !! (sku, month))) <$> columns)) <$> index.

Definition fillna (v : Z) (t : list (string * Series (option Z)))
  : list (string * Series Z) :=
  (λ r : string * Series (option Z),
     (r.1, (λ c : string * option Z, (c.1, default v c.2)) <$> r.2)) <$> t.

(** Line 189.  With a NaN cell the table holds its numbers as float64;
    the loop reads a cell only for its sign, which the conversion
    keeps. *)
Definition pivot_monthly (df_merged : DataFrame K) : list (string * Series Z) :=
  fillna 0 (pivot_table df_merged).

(** The comparison that [sorted(..., reverse=True)] asks of two values of
    the column.  NaN is not below NaN. *)
Definition month_gt (a b : option string) : Prop :=
  match a, b with
  | Some x, Some y => Str.gt x y
  | _, _ => False
  end.

#[global] Instance month_gt_dec a b : Decision (month_gt a b).
Proof. destruct a, b; simpl; apply _. Defined.

(** Line 190: [sorted(df_merged['order_month'].unique(), reverse=True)].
    [unique] keeps NaN as a value.  Sorting compares a month with NaN as
    soon as the list holds both, and [str < float] raises [TypeError]:
    [None]. *)
Definition latest_months (df_merged : DataFrame K)
  : option (list (option string)) :=
  let values := unique (order_month <$> df_merged) in
  if decide (None ∈ values ∧ values ≠ [None]) then None
  else Some (sorted month_gt values).

(** [row[month]]: [None] stands for the [KeyError] of a label that is
    not a column. *)
Fixpoint getitem {V} (row : Series V) (label : string) : option V :=
  match row with
  | [] => None
  | c :: row' => if decide (c.1 = label) then Some c.2 else getitem row' label
  end.

(** Lines 195-199: the inner loop, with its [break].  NaN is the label of
    no column. *)
Fixpoint streak_loop (row : Series Z) (months : list (option string))
    (current_streak : nat) : option nat :=
  match months with
  | [] => Some current_streak
  | month :: months' =>
      label ← month;
      v ← getitem row label;
      if decide (0 < v)%Z
      then streak_loop row months' (S current_streak)
      else Some current_streak
  end.

(** Lines 189-200: the dict [streaks], or [None] if line 190 or a lookup
    raised. *)
Definition streaks (df_merged : DataFrame K) : option (gmap string nat) :=
  let pivot_monthly := pivot_monthly df_merged in
  latest_months ← latest_months df_merged;
  foldl (λ acc r,
           streaks ← acc;
           current_streak ← streak_loop r.2 latest_months 0;
           Some (<[r.1 := current_streak]> streaks))
        (Some ∅) pivot_monthly.

(** The sales of [sku] in [month], and their aggregated amount: the
    int64 sum over these rows, 0 when there is none. *)
Definition sales_in (df : DataFrame K) (sku month : string) : DataFrame K :=
  filter (λ r, selling_sku_id r = sku ∧ order_month r = Some month) df.

Definition period_total (df : DataFrame K) (sku month : string) : Z :=
  Int64.sum (subtotal <$> sales_in df sku month).

(** All periods of the records, from the most recent one. *)
Definition periods (df : DataFrame K) : list string :=
  sorted Str.gt (unique (months df)).

End Streaks.

(** The streak in the words of the specification: walk the periods from
    the most recent one, count a period whose total is strictly
    positive, stop at the first period whose total is not. *)
Fixpoint streak_spec (total : string → Z) (periods : list string) : nat :=
  match periods with
  | [] => 0
  | p :: periods' =>
      if decide (0 < total p)%Z then S (streak_spec total periods') else 0
  end.

(** ** Tab 3: the market basket (lines 228-241) *)

(** A [collections.Counter] keyed by pairs: a dict, so the keys stay in
    the order of their first insertion. *)
Abbreviation Counter := (list ((string * string) * nat)).

(** [itertools.combinations(l, 2)]: the pairs of positions [i < j], in
    lexicographic order of the positions. *)
Fixpoint combinations2 {A} (l : list A) : list (A * A) :=
  match l with
  | [] => []
  | x :: l' => (pair x <$> l') ++ combinations2 l'
  end.

(** [c[k] = c.get(k, 0) + 1]. *)
Fixpoint incr (k : string * string) (c : Counter) : Counter :=
  match c with
  | [] => [(k, 1)]
  | e :: c' => if decide (e.1 = k) then (e.1, S e.2) :: c' else e :: incr k c'
  end.

(** [Counter.update(iterable)]. *)
Definition update (c : Counter) (it : list (string * string)) : Counter :=
  foldl (λ c k, incr k c) c it.

(** [c[k]]: the count of [k], 0 for a key that was never counted. *)
Fixpoint count_of (c : Counter) (k : string * string) : nat :=
  match c with
  | [] => 0
  | e :: c' => if decide (e.1 = k) then e.2 else count_of c' k
  end.

(** Lines 234-237. *)
Definition pair_counts (baskets : list (list string)) : Counter :=
  foldl (λ pair_counts products,
           let products := sorted Str.lt products in
           update pair_counts (combinations2 products))
        [] baskets.

(** The pairs that the loop of lines 235-237 hands to the counter, in the
    order in which it does. *)
Definition all_pairs (baskets : list (list string)) : list (string * string) :=
  concat ((λ products, combinations2 (sorted Str.lt products)) <$> baskets).

(** The order [sorted(items, key=itemgetter(1), reverse=True)] asks for:
    the larger count first. *)
Definition count_gt (y x : (string * string) * nat) : Prop := x.2 < y.2.

#[global] Instance count_gt_dec y x : Decision (count_gt y x).
Proof. unfold count_gt. apply _. Defined.

(** Entry [x] has at least the count of entry [y]. *)
Definition count_ge (x y : (string * string) * nat) : Prop := y.2 ≤ x.2.

(** The order a tie-break on the pair itself would give: larger count
    first and, among equal counts, the lexicographically smaller pair
    first. *)
Definition count_then_lex (x y : (string * string) * nat) : Prop :=
  y.2 < x.2 ∨ (x.2 = y.2 ∧ Str.pair_le x.1 y.1).

#[global] Instance count_ge_dec x y : Decision (count_ge x y).
Proof. unfold count_ge. apply _. Defined.

#[global] Instance count_then_lex_dec x y : Decision (count_then_lex x y).
Proof. unfold count_then_lex. apply _. Defined.

(** [Counter.most_common(n)] is [heapq.nlargest(n, items, key=count)],
    that is [sorted(items, key=count, reverse=True)[:n]]. *)
Definition most_common (n : nat) (c : Counter) : Counter :=
  take n (sorted count_gt c).

Section Basket.
Context {K : Type} `{!Dtype K}.

(** Line 228: [groupby('order_id')['selling_sku_id'].count()]. *)
Definition order_counts (df : DataFrame K) : list (K * nat) :=
  (λ o, (o, length (filter (λ r, order_id r = o) df))) <$> group_keys order_id df.

(** Line 229: [order_counts[order_counts > 1].index]. *)
Definition multi_item_orders (df : DataFrame K) : list K :=
  (filter (λ oc, 1 < oc.2) (order_counts df)).*1.

(** Line 230. *)
Definition df_basket (df : DataFrame K) : DataFrame K :=
  filter (λ r, order_id r ∈ multi_item_orders df) df.

(** Line 233: [groupby('order_id')['selling_sku_id'].apply(list)]: per
    order, in the order of the [order_id]s, the skus of its rows in row
    order. *)
Definition baskets (df_basket : DataFrame K) : list (list string) :=
  (λ o, selling_sku_id <$> filter (λ r, order_id r = o) df_basket)
    <$> group_keys order_id df_basket.

(** The line items of order [o], the skus on them, and the orders that
    line 229 keeps: the vocabulary in which the properties of tab 3 are
    stated. *)
Definition order_rows (df : DataFrame K) (o : K) : DataFrame K :=
  filter (λ r, order_id r = o) df.

Definition basket_of (df : DataFrame K) (o : K) : list string :=
  selling_sku_id <$> order_rows df o.

Definition retained_orders (df : DataFrame K) : list K :=
  filter (λ o, 1 < length (order_rows df o)) (group_keys order_id df).

(** The distinct [order_id]s in which both [a] and [b] appear. *)
Definition orders_with_both (df : DataFrame K) (a b : string) : list K :=
  filter (λ o, a ∈ basket_of df o ∧ b ∈ basket_of df o)
         (unique (order_id <$> df)).

(** The (order, sku) of every line: without repeats when no order has a
    sku on two lines. *)
Definition line_keys (df : DataFrame K) : list (K * string) :=
  (λ r, (order_id r, selling_sku_id r)) <$> df.

(** How often the pair [k] comes out of the basket of order [o]. *)
Definition pairs_in_order (df : DataFrame K) (k : string * string) (o : K)
  : nat :=
  length (filter (λ p, p = k) (combinations2 (sorted Str.lt (basket_of df o)))).

(** Lines 228-239 with the number of pairs kept as a parameter.  When
    [df_basket] is empty the page shows a notice and no pair at all. *)
Definition countPairs (topK : nat) (df : DataFrame K) : Counter :=
  let df_basket := df_basket df in
  if decide (df_basket = []) then []
  else most_common topK (pair_counts (baskets df_basket)).

(** Line 239: the dashboard keeps twenty pairs. *)
Definition df_pairs (df_merged_filtered : DataFrame K) : Counter :=
  countPairs 20 df_merged_filtered.

End Basket.

(** ** The script, run after run

    The page is a script: Streamlit runs it from the top on every
    interaction, and tabs 2 and 3 work by assigning to variables.  The
    variables they assign, with whatever values they hold when a run
    reaches the tab. *)
Record Vars := mkVars {
  var_streaks : gmap string nat;
  var_current_streak : nat;
  var_pair_counts : Counter;
  var_df_pairs : Counter
}.

Section Script.
Context {K : Type} `{!Dtype K}.

(** Lines 189-200 on the variables: line 192 assigns the empty dict,
    line 194 assigns 0 before the inner loop counts, line 200 stores the
    count. *)
Definition run_streaks (df_merged : DataFrame K) (vars : Vars) : option Vars :=
  let pivot_monthly := pivot_monthly df_merged in
  latest_months ← latest_months df_merged;
  let vars := mkVars ∅ (var_current_streak vars) (var_pair_counts vars)
                     (var_df_pairs vars) in
  foldl (λ acc r,
           vars ← acc;
           let vars := mkVars (var_streaks vars) 0 (var_pair_counts vars)
                              (var_df_pairs vars) in
           current_streak ← streak_loop r.2 latest_months (var_current_streak vars);
           Some (mkVars (<[r.1 := current_streak]> (var_streaks vars))
                        current_streak (var_pair_counts vars) (var_df_pairs vars)))
        (Some vars) pivot_monthly.

(** Lines 228-239 on the variables, and the pairs that the page shows:
    [df_pairs], or [None] for the notice of line 261, which assigns
    nothing. *)
Definition run_pairs (df_merged_filtered : DataFrame K) (vars : Vars)
  : Vars * option Counter :=
  let df_basket := df_basket df_merged_filtered in
  if decide (df_basket = []) then (vars, None)
  else
    let vars := mkVars (var_streaks vars) (var_current_streak vars) []
                       (var_df_pairs vars) in
    let vars :=
      foldl (λ vars products,
               let products := sorted Str.lt products in
               mkVars (var_streaks vars) (var_current_streak vars)
                      (update (var_pair_counts vars) (combinations2 products))
                      (var_df_pairs vars))
            vars (baskets df_basket) in
    let vars := mkVars (var_streaks vars) (var_current_streak vars)
                       (var_pair_counts vars)
                       (most_common 20 (var_pair_counts vars)) in
    (vars, Some (var_df_pairs vars)).

End Script.

(** ** The examples of the specification, and more inputs *)

(** One order with the same sku on two lines and another sku. *)
Definition one_order_repeat : DataFrame string :=
  [ mkRow "o1" "A" (Some "2025-01") 5; mkRow "o1" "A" (Some "2025-01") 5;
    mkRow "o1" "B" (Some "2025-01") 3 ].

(** One order with two lines of a single sku. *)
Definition one_order_one_sku : DataFrame string :=
  [ mkRow "o1" "A" (Some "2025-01") 5; mkRow "o1" "A" (Some "2025-01") 5 ].

(** A single line, sold for nothing. *)
Definition free_item : DataFrame string :=
  [ mkRow "o1" "A" (Some "2025-01") 0 ].

(** Two orders whose pairs tie, the first order holding the larger
    pair. *)
Definition two_orders_tie : DataFrame string :=
  [ mkRow "o1" "C" (Some "2025-01") 1; mkRow "o1" "D" (Some "2025-01") 1;
    mkRow "o2" "A" (Some "2025-01") 1; mkRow "o2" "B" (Some "2025-01") 1 ].

(** The same with the ids 9 and 10, read as numbers and read as text. *)
Definition orders_9_10 : DataFrame Z :=
  [ mkRow 9%Z "C" (Some "2025-01") 1; mkRow 9%Z "D" (Some "2025-01") 1;
    mkRow 10%Z "A" (Some "2025-01") 1; mkRow 10%Z "B" (Some "2025-01") 1 ].

Definition orders_9_10_text : DataFrame string :=
  [ mkRow "9" "C" (Some "2025-01") 1; mkRow "9" "D" (Some "2025-01") 1;
    mkRow "10" "A" (Some "2025-01") 1; mkRow "10" "B" (Some "2025-01") 1 ].

(** Two sales of one sku in one month whose amounts add up to 2^63. *)
Definition overflowing_sales : DataFrame Z :=
  [ mkRow 1%Z "A" (Some "2025-01") 9223372036854775807;
    mkRow 2%Z "A" (Some "2025-01") 1 ].

(** A line of an order and a line whose order is missing. *)
Definition orphan_line : DataFrame Z :=
  [ mkRow 1%Z "A" (Some "2025-01") 5; mkRow 2%Z "B" None 3 ].

(** The two examples of the specification. *)
Definition ex1 : DataFrame string :=
  [ mkRow "o1" "A" (Some "2025-01") 5; mkRow "o1" "B" (Some "2025-01") 3;
    mkRow "o2" "A" (Some "2025-02") 2 ].

Definition ex2 : DataFrame string :=
  [ mkRow "o1" "X" (Some "jan") 1; mkRow "o1" "Y" (Some "jan") 1;
    mkRow "o2" "X" (Some "jan") 1; mkRow "o2" "Y" (Some "jan") 1;
    mkRow "o2" "Z" (Some "jan") 1 ].

(** ** Loading: months and categories (lines 15-25 and 44-49) *)

(** The date of a [pd.Timestamp]; the time of day plays no part. *)
Record Timestamp := mkTimestamp { year : nat; month : nat; day : nat }.

(** One decimal digit as a character. *)
Definition digit (d : nat) : ascii := ascii_of_nat (48 + d mod 10).

(** A number below 100 on two digits, one below 10000 on four. *)
Definition zfill2 (n : nat) : string :=
  String (digit (n / 10)) (String (digit n) EmptyString).

Definition zfill4 (n : nat) : string :=
  String (digit (n / 1000)) (String (digit (n / 100)) (zfill2 n)).

(** Line 49: [dt.to_period('M').astype(str)], the month as ["YYYY-MM"]. *)
Definition to_period_M (t : Timestamp) : string :=
  (zfill4 (year t) ++ "-" ++ zfill2 (month t))%string.

(** Lines 15-25: the entries of the dict, and the dict. *)
Definition category_table : list (string * string) :=
  [ ("001", "Tire"); ("002", "Rubber"); ("003", "Motor Oil");
    ("004", "Battery"); ("005", "Spark Plug"); ("006", "Sprocket");
    ("007", "Motorcycle Belt"); ("008", "Etc"); ("009", "Brake") ].

Definition CATEGORY_MAP : gmap string string := list_to_map category_table.

(** Line 44: [str[:3]], the first three characters, or all of a shorter
    string.  Characters are bytes here; as the ids of the dict are ASCII,
    a string starts with an id as bytes exactly when it does as text. *)
Definition category_id (selling_sku_id : string) : string :=
  substring 0 3 selling_sku_id.

(** Line 45: [map(CATEGORY_MAP).fillna("Unknown")]. *)
Definition category_name (selling_sku_id : string) : string :=
  default "Unknown" (CATEGORY_MAP !! category_id selling_sku_id).

(** The month of [t1] lies before the month of [t2]. *)
Definition month_before (t1 t2 : Timestamp) : Prop :=
  year t1 < year t2 ∨ (year t1 = year t2 ∧ month t1 < month t2).

(** ** The two tables, their merge and the sidebar filter (lines 40-87) *)

(** A row of [df_items] (line 40).  The ids of both tables have one and
    the same dtype [K]; the amounts are int64. *)
Module Items.
Record t (K : Type) := mk {
  order_id : K;
  selling_sku_id : string;
  quantity : Z;
  unit_price : Z;
  subtotal : Z
}.
Arguments mk {K} _ _ _ _ _.
Arguments order_id {K} _.
Arguments selling_sku_id {K} _.
Arguments quantity {K} _.
Arguments unit_price {K} _.
Arguments subtotal {K} _.
End Items.

(** A row of [df_orders] (line 41), with the month of line 49. *)
Module Orders.
Record t (K : Type) := mk {
  order_id : K;
  platform_name : string;
  order_date : Timestamp;
  total_amount : Z
}.
Arguments mk {K} _ _ _ _.
Arguments order_id {K} _.
Arguments platform_name {K} _.
Arguments order_date {K} _.
Arguments total_amount {K} _.

Definition order_month {K} (o : t K) : string := to_period_M (order_date o).
End Orders.

(** A row of [df_merged]: an item line and the columns of its order, NaN
    ([None]) when no order has its [order_id]. *)
Record Merged (K : Type) := mkMerged {
  item : Items.t K;
  order : option (Orders.t K)
}.
Arguments mkMerged {K} _ _.
Arguments item {K} _.
Arguments order {K} _.

Section Merge.
Context {K : Type} `{!Dtype K}.

(** Line 52: [df_items.merge(df_orders, on='order_id', how='left')].  The
    lines keep their order; a line comes once per order row with its id,
    and once with NaN when there is none. *)
Definition merge_left (df_items : list (Items.t K))
    (df_orders : list (Orders.t K)) : list (Merged K) :=
  i ← df_items;
  match filter (λ o, Orders.order_id o = Items.order_id i) df_orders with
  | [] => [mkMerged i None]
  | matches => (λ o, mkMerged i (Some o)) <$> matches
  end.

(** Line 64 and line 68. *)
Definition available_platforms (df_orders : list (Orders.t K)) : list string :=
  unique (Orders.platform_name <$> df_orders).

Definition available_months (df_orders : list (Orders.t K)) : list string :=
  sorted Str.lt (unique (Orders.order_month <$> df_orders)).

(** Line 69: the range the slider starts with,
    [(available_months[0], available_months[-1])]; [None] stands for the
    [IndexError] on an empty list. *)
Definition default_month_range (df_orders : list (Orders.t K))
  : option (string * string) :=
  start_month ← head (available_months df_orders);
  end_month ← last (available_months df_orders);
  Some (start_month, end_month).

(** Lines 75-79: the mask, row by row. *)
Definition mask_orders (selected_platforms : list string)
    (start_month end_month : string) (o : Orders.t K) : Prop :=
  Orders.platform_name o ∈ selected_platforms ∧
  Str.le start_month (Orders.order_month o) ∧
  Str.le (Orders.order_month o) end_month.

#[global] Instance mask_orders_dec sel s e o : Decision (mask_orders sel s e o).
Proof. unfold mask_orders. apply _. Defined.

(** Lines 82-86: the same mask on the merged rows; [isin] and the
    comparisons are false on NaN. *)
Definition mask_merged (selected_platforms : list string)
    (start_month end_month : string) (m : Merged K) : Prop :=
  match order m with
  | Some o => mask_orders selected_platforms start_month end_month o
  | None => False
  end.

#[global] Instance mask_merged_dec sel s e m : Decision (mask_merged sel s e m).
Proof. unfold mask_merged. destruct (order m); apply _. Defined.

(** Line 80 and line 87. *)
Definition df_orders_filtered (selected_platforms : list string)
    (start_month end_month : string) (df_orders : list (Orders.t K))
  : list (Orders.t K) :=
  filter (mask_orders selected_platforms start_month end_month) df_orders.

Definition df_merged_filtered (selected_platforms : list string)
    (start_month end_month : string) (df_merged : list (Merged K))
  : list (Merged K) :=
  filter (mask_merged selected_platforms start_month end_month) df_merged.

(** The columns of a merged row that tabs 2 and 3 read; the month of a
    row without order is NaN. *)
Definition as_row (m : Merged K) : Row K :=
  mkRow (Items.order_id (item m)) (Items.selling_sku_id (item m))
        (Orders.order_month <$> order m) (Items.subtotal (item m)).

Definition rows (df_merged : list (Merged K)) : DataFrame K :=
  as_row <$> df_merged.

End Merge.

(** Two orders in two months and their three lines. *)
Definition sample_orders : list (Orders.t string) :=
  [ Orders.mk "o1" "Shopee" (mkTimestamp 2025 1 15) 8;
    Orders.mk "o2" "Lazada" (mkTimestamp 2025 2 3) 2 ].

Definition sample_items : list (Items.t string) :=
  [ Items.mk "o1" "001-A" 1 5 5; Items.mk "o1" "002-B" 1 3 3;
    Items.mk "o2" "001-A" 1 2 2 ].

(** The same lines and a line of an order that is not in the table. *)
Definition sample_items_orphan : list (Items.t string) :=
  sample_items ++ [ Items.mk "o3" "002-B" 1 4 4 ].

(** Two orders of 2^62 each, on two platforms and in two categories. *)
Definition large_orders : list (Orders.t Z) :=
  [ Orders.mk 1%Z "Shopee" (mkTimestamp 2025 1 15) 4611686018427387904;
    Orders.mk 2%Z "Lazada" (mkTimestamp 2025 1 20) 4611686018427387904 ].

Definition large_items : list (Items.t Z) :=
  [ Items.mk 1%Z "001-A" 1 4611686018427387904 4611686018427387904;
    Items.mk 2%Z "002-B" 1 4611686018427387904 4611686018427387904 ].

(** ** Tab 1: sales per category (line 163) *)

Section Tabs.
Context {K : Type} `{!Dtype K}.

(** The category of a merged row: the column [category_name] of its
    item. *)
Definition row_category (m : Merged K) : string :=
  category_name (Items.selling_sku_id (item m)).

(** [groupby('category_name')['subtotal'].sum()]: one row per category
    present, in the order of the names, with the int64 sum of its
    lines. *)
Definition category_totals (df : list (Merged K)) : list (string * Z) :=
  (λ c, (c, Int64.sum (Items.subtotal ∘ item
                         <$> filter (λ m, row_category m = c) df)))
    <$> sorted Str.lt (unique (row_category <$> df)).

End Tabs.

(** The larger total first. *)
Definition total_gt (y x : string * Z) : Prop := (x.2 < y.2)%Z.

#[global] Instance total_gt_dec y x : Decision (total_gt y x).
Proof. unfold total_gt. apply _. Defined.

Definition total_ge (x y : string * Z) : Prop := (y.2 ≤ x.2)%Z.

(** A row of [sku_stats]. *)
Record SkuStat := mkSkuStat {
  stat_sku : string;
  stat_category : string;
  stat_subtotal : Z;
  stat_quantity : Z;
  stat_orders : nat
}.

(** Group keys that are tuples of two strings compare component by
    component. *)
Definition key_lt (p q : string * string) : Prop :=
  Str.lt p.1 q.1 ∨ (p.1 = q.1 ∧ Str.lt p.2 q.2).

#[global] Instance key_lt_dec p q : Decision (key_lt p q).
Proof. unfold key_lt. apply _. Defined.

Section Tables.
Context {K : Type} `{!Dtype K}.

(** Line 163: [... .reset_index().sort_values('subtotal',
    ascending=False)].  pandas does not fix the order of rows with equal
    totals; here they keep their order. *)
Definition cat_sales (df_merged_filtered : list (Merged K))
  : list (string * Z) :=
  sorted total_gt (category_totals df_merged_filtered).

(** ** Tab 2: the product table (lines 182-203) *)

Definition sku_key (m : Merged K) : string * string :=
  (Items.selling_sku_id (item m), row_category m).

(** Lines 182-186: [groupby(['selling_sku_id', 'category_name']).agg(
    {'subtotal': 'sum', 'quantity': 'sum', 'order_id': 'nunique'})]. *)
Definition sku_stats (df_merged_filtered : list (Merged K)) : list SkuStat :=
  (λ k, let g := filter (λ m, sku_key m = k) df_merged_filtered in
        mkSkuStat k.1 k.2
          (Int64.sum (Items.subtotal ∘ item <$> g))
          (Int64.sum (Items.quantity ∘ item <$> g))
          (length (unique (Items.order_id ∘ item <$> g))))
    <$> sorted key_lt (unique (sku_key <$> df_merged_filtered)).

(** Lines 202-203: [sku_stats.merge(df_streaks, on='selling_sku_id')], an
    inner merge with the items of the dict [streaks]: the rows of
    [sku_stats] whose sku is a key, in their order, with the streak. *)
Definition final_product_df (sku_stats : list SkuStat)
    (streaks : gmap string nat) : list (SkuStat * nat) :=
  omap (λ s, current_streak ← streaks !! stat_sku s; Some (s, current_streak))
       sku_stats.

(** Tab 2 from the two tables it reads: the streaks of all rows, joined
    to the statistics of the filtered rows; [None] when line 190
    raises. *)
Definition product_table (df_merged df_merged_filtered : list (Merged K))
  : option (list (SkuStat * nat)) :=
  let sku_stats := sku_stats df_merged_filtered in
  streaks ← streaks (rows df_merged);
  Some (final_product_df sku_stats streaks).

(** ** The KPI row (line 92) *)

(** Line 92: [df_orders_filtered['total_amount'].sum()]. *)
Definition total_revenue (df_orders_filtered : list (Orders.t K)) : Z :=
  Int64.sum (Orders.total_amount <$> df_orders_filtered).

(** The lines of an order. *)
Definition lines_of (df_items : list (Items.t K)) (o : Orders.t K)
  : list (Items.t K) :=
  filter (λ i, Items.order_id i = Orders.order_id o) df_items.

(** ** Tab 1: the trend and the platform share (lines 119 and 142) *)

Definition month_platform (o : Orders.t K) : string * string :=
  (Orders.order_month o, Orders.platform_name o).

(** Line 119: [groupby(['order_month', 'platform_name'])['total_amount']
    .sum().reset_index()]. *)
Definition sales_by_month (df_orders_filtered : list (Orders.t K))
  : list ((string * string) * Z) :=
  (λ k, (k, Int64.sum (Orders.total_amount
                         <$> filter (λ o, month_platform o = k)
                                    df_orders_filtered)))
    <$> sorted key_lt (unique (month_platform <$> df_orders_filtered)).

(** Line 142: [groupby('platform_name')['total_amount'].sum()
    .reset_index()], the platform share by sales. *)
Definition platform_data (df_orders_filtered : list (Orders.t K))
  : list (string * Z) :=
  (λ k, (k, Int64.sum (Orders.total_amount
                         <$> filter (λ o, Orders.platform_name o = k)
                                    df_orders_filtered)))
    <$> sorted Str.lt (unique (Orders.platform_name <$> df_orders_filtered)).

End Tables.

(** ** Importing orders ([pages/import_orders.py], lines 70-124) *)

(** Line 94 makes the prices float64, and with them the subtotals and
    the totals.  The arithmetic of float64 is not part of the script: it
    is taken as given, with the product of two numbers, the conversion of
    an int64, pandas' sum of a group of numbers in row order, and 0.0. *)
Class Float64 (float64 : Type) := mkFloat64 {
  float_mul : float64 → float64 → float64;
  float_of_int : Z → float64;
  float_sum : list float64 → float64;
  float_zero : float64
}.

Module Upload.

Section Float.
Context {float64 : Type} `{!Float64 float64}.

(** A row of [df_clean], as [process_tiktok] and [process_lazada] build
    it, with numeric quantity and price; a missing number is NaN
    ([None]). *)
Record Clean := mkClean {
  order_id : string;
  order_date : Timestamp;
  platform_sku_original : string;
  quantity : option Z;
  unit_price : option float64;
  platform : string
}.

(** A row of [product.platform_bindings]; the sku may be NULL. *)
Record Binding := mkBinding {
  platform_external_sku : string;
  selling_sku_id : option string
}.

(** A row of [merged_df] after line 79: a row of the file with the sku of
    a binding, NaN when nothing binds its platform sku. *)
Record Matched := mkMatched { clean : Clean; sku : option string }.

(** Lines 79-85: the left merge on the platform sku. *)
Definition match_skus (df_clean : list Clean) (df_bindings : list Binding)
  : list Matched :=
  c ← df_clean;
  match filter (λ b, platform_external_sku b = platform_sku_original c)
               df_bindings with
  | [] => [mkMatched c None]
  | bindings => (λ b, mkMatched c (selling_sku_id b)) <$> bindings
  end.

(** Line 88. *)
Definition unmapped (merged_df : list Matched) : list Matched :=
  filter (λ m, sku m = None) merged_df.

(** Lines 94-98: the price as float64 and the quantity as int, NaN
    replaced by 0, and the line total, the float64 product of the two. *)
Record Priced := mkPriced {
  matched : Matched;
  price : float64;
  units : Z;
  subtotal : float64
}.

Definition with_subtotal (m : Matched) : Priced :=
  let unit_price := default float_zero (unit_price (clean m)) in
  let quantity := default 0%Z (quantity (clean m)) in
  mkPriced m unit_price quantity (float_mul unit_price (float_of_int quantity)).

Definition priced_order_id (r : Priced) : string := order_id (clean (matched r)).

(** Lines 102-103: [groupby('order_id')['subtotal'].sum().reset_index()]. *)
Definition order_totals (merged_df : list Priced) : list (string * float64) :=
  (λ k, (k, float_sum (subtotal
                         <$> filter (λ r, priced_order_id r = k) merged_df)))
    <$> sorted Str.lt (unique (priced_order_id <$> merged_df)).

(** Line 106: the left merge with the totals on [order_id]; NaN where no
    total has the id. *)
Definition with_total (merged_df : list Priced)
    (order_totals : list (string * float64))
  : list (Priced * option float64) :=
  r ← merged_df;
  match filter (λ t, t.1 = priced_order_id r) order_totals with
  | [] => [(r, None)]
  | totals => (λ t, (r, Some t.2)) <$> totals
  end.

(** A row of [orders_data] and a row of [items_data]. *)
Record Header := mkHeader {
  header_order_id : string;
  platform_name : string;
  header_order_date : Timestamp;
  total_amount : option float64
}.

Record Line := mkLine {
  line_order_id : string;
  line_selling_sku_id : option string;
  line_platform_sku_original : string;
  line_quantity : Z;
  line_unit_price : float64;
  line_subtotal : float64
}.

Definition header (r : Priced * option float64) : Header :=
  let c := clean (matched r.1) in
  mkHeader (order_id c) (platform c) (order_date c) r.2.

Definition line (r : Priced * option float64) : Line :=
  let c := clean (matched r.1) in
  mkLine (order_id c) (sku (matched r.1)) (platform_sku_original c)
         (units r.1) (price r.1) (subtotal r.1).

(** [drop_duplicates(subset='order_id')]: the first row of every id. *)
Fixpoint drop_duplicates (l : list Header) : list Header :=
  match l with
  | [] => []
  | h :: l' =>
      h :: filter (λ h', header_order_id h' ≠ header_order_id h)
                  (drop_duplicates l')
  end.

(** Lines 70-121 without the database: [None] when line 92 returns
    [False] before anything is written, otherwise the rows handed to
    [to_sql], [orders_data] and [items_data]. *)
Definition match_skus_and_upload (df_clean : list Clean)
    (df_bindings : list Binding) : option (list Header * list Line) :=
  let merged_df := match_skus df_clean df_bindings in
  if decide (unmapped merged_df = []) then
    let merged_df := with_subtotal <$> merged_df in
    let order_totals := order_totals merged_df in
    let merged_df := with_total merged_df order_totals in
    let orders_data := drop_duplicates (header <$> merged_df) in
    let items_data := line <$> merged_df in
    Some (orders_data, items_data)
  else None.

End Float.

Arguments Clean : clear implicits.
Arguments Matched : clear implicits.
Arguments Priced : clear implicits.
Arguments Header : clear implicits.
Arguments Line : clear implicits.

End Upload.

(** Numbers of the machine as an instance: IEEE 754 binary64 with its
    product, whole numbers built from their binary digits (exactly below
    2^53), and the sum taken from left to right. *)
Fixpoint float_of_positive (p : positive) : float :=
  match p with
  | xH => 1
  | xO p => 2 * float_of_positive p
  | xI p => 2 * float_of_positive p + 1
  end%float.

Definition float_of_Z (z : Z) : float :=
  match z with
  | Z0 => 0
  | Zpos p => float_of_positive p
  | Zneg p => - float_of_positive p
  end%float.

#[global] Instance binary64 : Float64 float :=
  mkFloat64 float PrimFloat.mul float_of_Z (foldl PrimFloat.add 0%float)
            0%float.

(** A file of three lines in two orders, and the bindings of its skus. *)
Definition sample_clean : list (Upload.Clean float) :=
  [ Upload.mkClean "5764332211" (mkTimestamp 2025 1 1) "sku-1" (Some 1%Z)
      (Some 1400%float) "Tiktok";
    Upload.mkClean "5764332211" (mkTimestamp 2025 1 1) "sku-2" (Some 2%Z)
      (Some 900%float) "Tiktok";
    Upload.mkClean "5764332299" (mkTimestamp 2025 1 1) "sku-2" None
      (Some 900%float) "Tiktok" ].

Definition sample_bindings : list Upload.Binding :=
  [ Upload.mkBinding "sku-1" (Some "001-IRC-MAXING");
    Upload.mkBinding "sku-2" (Some "IRC-SCT-FORZA") ].

(** ** Reading an export ([pages/import_orders.py], lines 15-67) *)

(** An uploaded table: its columns in order, each with its cells as
    text, so that [astype(str)] changes nothing. *)
Abbreviation RawFrame := (list (string * list string)).

(** What a processing function can raise: [df[col]] on a missing column,
    and [pd.to_datetime] on a cell that is no date. *)
Inductive Raised :=
  | KeyError (column : string)
  | ValueError.

(** [df[col]]. *)
Definition column (df : RawFrame) (col : string) : Raised + list string :=
  match getitem df col with
  | Some cells => inr cells
  | None => inl (KeyError col)
  end.

(** The columns of [df_clean], as lines 44-52 and 55-67 assign them; the
    quantity of Lazada and the platform are scalars, the same for every
    row. *)
Record CleanFrame := mkCleanFrame {
  clean_order_id : list string;
  clean_order_date : list Timestamp;
  clean_platform_sku_original : list string;
  clean_quantity : list string + Z;
  clean_unit_price : list string;
  clean_platform : string
}.

Section Process.
(** [pd.to_datetime] on a cell; [None] when it raises. *)
Context (to_datetime : string → option Timestamp).

Definition to_datetimes (cells : list string) : Raised + list Timestamp :=
  match mapM to_datetime cells with
  | Some dates => inr dates
  | None => inl ValueError
  end.

(** Lines 43-52. *)
Definition process_tiktok (df : RawFrame) : Raised + CleanFrame :=
  match column df "Order ID" with
  | inl e => inl e
  | inr order_id =>
  match column df "Created Time" with
  | inl e => inl e
  | inr created =>
  match to_datetimes created with
  | inl e => inl e
  | inr order_date =>
  match column df "SKU ID" with
  | inl e => inl e
  | inr sku =>
  match column df "Quantity" with
  | inl e => inl e
  | inr quantity =>
  match column df "SKU Unit Original Price" with
  | inl e => inl e
  | inr unit_price =>
      inr (mkCleanFrame order_id order_date sku (inl quantity) unit_price
             "Tiktok")
  end end end end end end.

(** Lines 54-67. *)
Definition process_lazada (df : RawFrame) : Raised + CleanFrame :=
  match column df "orderNumber" with
  | inl e => inl e
  | inr order_id =>
  match column df "createTime" with
  | inl e => inl e
  | inr created =>
  match to_datetimes created with
  | inl e => inl e
  | inr order_date =>
  match column df "lazadaSku" with
  | inl e => inl e
  | inr sku =>
  match column df "unitPrice" with
  | inl e => inl e
  | inr unit_price =>
      inr (mkCleanFrame order_id order_date sku (inr 1%Z) unit_price "Lazada")
  end end end end end.

End Process.

(** Lines 15-39: the template offered for download, as the table that
    reading its CSV gives back; [None] for another platform. *)
Definition get_sample_file (platform_name : string) : option RawFrame :=
  if decide (platform_name = "TikTok") then
    Some [ ("Order ID", ["5764332211"; "5764332299"]);
           ("Created Time", ["01/01/2025 10:00:00"; "01/01/2025 12:00:00"]);
           ("Seller SKU", ["001-IRC-MAXING-TT-27517-003"; "IRC-SCT-FORZA"]);
           ("Quantity", ["1"; "2"]);
           ("SKU Unit Original Price", ["1400.0"; "900.0"]) ]
  else if decide (platform_name = "Lazada") then
    Some [ ("orderNumber", ["3957221001"; "3957221002"]);
           ("createTime", ["01 Jan 2025 10:00"; "02 Jan 2025 14:30"]);
           ("sellerSku", ["001-IRC-MAXING-TT-27517-003"; "IRC-SCT-FORZA"]);
           ("unitPrice", ["1400.0"; "900.0"]);
           ("shippingFee", ["45.0"; "0.0"]) ]
  else None.
Example ex1_months : latest_months ex1 = Some [Some "2025-02"; Some "2025-01"].
Proof. reflexivity. Qed.

Example ex1_streaks : streaks ex1 = Some {[ "A" := 2; "B" := 0 ]}.
Proof. vm_compute. reflexivity. Qed.

Example ex1_pairs : df_pairs ex1 = [(("A", "B"), 1)].
Proof. reflexivity. Qed.

Example ex2_pairs :
  df_pairs ex2 = [(("X", "Y"), 2); (("X", "Z"), 1); (("Y", "Z"), 1)].
Proof. reflexivity. Qed.

(** Read as numbers, order 9 comes before order 10 and its pair is
    counted first; read as text, "10" comes before "9". *)
Example orders_9_10_pairs :
  df_pairs orders_9_10 = [(("C", "D"), 1); (("A", "B"), 1)] ∧
  df_pairs orders_9_10_text = [(("A", "B"), 1); (("C", "D"), 1)].
Proof. split; reflexivity. Qed.

(** The int64 sum of 2^63 - 1 and 1 is -2^63: the sku has a sale in the
    only month and the streak 0. *)
Example overflowing_sales_streaks :
  period_total overflowing_sales "A" "2025-01" = (-9223372036854775808)%Z ∧
  streaks overflowing_sales = Some {[ "A" := 0 ]}.
Proof. split; by vm_compute. Qed.

(** With a line whose order is missing, line 190 raises. *)
Example orphan_line_streaks : streaks orphan_line = None.
Proof. reflexivity. Qed.

(** ** The order on strings *)

Module StrFacts.
Import Str.

Lemma ascii_compare_refl c : Ascii.compare c c = Eq.
Proof. unfold Ascii.compare. apply N.compare_refl. Qed.

Lemma ascii_compare_lt_trans a b c :
  Ascii.compare a b = Lt → Ascii.compare b c = Lt → Ascii.compare a c = Lt.
Proof.
  unfold Ascii.compare. rewrite !N.compare_lt_iff. apply N.lt_trans.
Qed.

Lemma compare_refl s : String.compare s s = Eq.
Proof. induction s as [|c s IH]; simpl; [done|]. by rewrite ascii_compare_refl. Qed.

Lemma compare_Eq s1 s2 : String.compare s1 s2 = Eq ↔ s1 = s2.
Proof.
  split; [apply String.compare_eq_iff|]. intros ->. apply compare_refl.
Qed.

Lemma compare_lt_trans s1 : ∀ s2 s3,
  String.compare s1 s2 = Lt → String.compare s2 s3 = Lt →
  String.compare s1 s3 = Lt.
Proof.
  induction s1 as [|a s1 IH]; intros [|b s2] [|c s3]; simpl; try done.
  destruct (Ascii.compare a b) eqn:Hab; try done;
    destruct (Ascii.compare b c) eqn:Hbc; try done; intros H1 H2.
  - apply Ascii.compare_eq_iff in Hab, Hbc. subst.
    rewrite ascii_compare_refl. eauto.
  - apply Ascii.compare_eq_iff in Hab. subst. by rewrite Hbc.
  - apply Ascii.compare_eq_iff in Hbc. subst. by rewrite Hab.
  - by rewrite (ascii_compare_lt_trans _ _ _ Hab Hbc).
Qed.

Lemma lt_compare a b : lt a b ↔ String.compare a b = Lt.
Proof. unfold lt, String.ltb. by destruct (String.compare a b). Qed.

Lemma le_compare a b : le a b ↔ String.compare a b ≠ Gt.
Proof. unfold le, String.leb. by destruct (String.compare a b). Qed.

Lemma le_lt_or_eq a b : le a b ↔ lt a b ∨ a = b.
Proof.
  rewrite le_compare, lt_compare, <-compare_Eq.
  destruct (String.compare a b); intuition congruence.
Qed.

Lemma not_lt_le a b : ¬ lt b a ↔ le a b.
Proof.
  rewrite le_compare, lt_compare, (String.compare_antisym a b).
  destruct (String.compare b a); simpl; split; congruence.
Qed.

#[global] Instance lt_irrefl : Irreflexive lt.
Proof. intros a. unfold complement. rewrite lt_compare, compare_refl. done. Qed.

#[global] Instance lt_trans : Transitive lt.
Proof. intros a b c. rewrite !lt_compare. apply compare_lt_trans. Qed.

Lemma lt_asym a b : lt a b → ¬ lt b a.
Proof. intros H1 H2. by apply (lt_irrefl a); trans b. Qed.

#[global] Instance le_refl : Reflexive le.
Proof. intros a. apply le_lt_or_eq. by right. Qed.

#[global] Instance le_trans : Transitive le.
Proof.
  intros a b c. rewrite !le_lt_or_eq.
  intros [?| ->] [?| ->]; eauto. left. by trans b.
Qed.

Lemma lt_le a b : lt a b → le a b.
Proof. rewrite le_lt_or_eq. by left. Qed.

Lemma lt_ne a b : lt a b → a ≠ b.
Proof. intros H ->. by apply (lt_irrefl b). Qed.

Lemma le_ne_lt a b : le a b → a ≠ b → lt a b.
Proof. rewrite le_lt_or_eq. intros [?| ->] ?; [done|congruence]. Qed.

Lemma lt_trichotomy a b : lt a b ∨ a = b ∨ lt b a.
Proof.
  destruct (decide (lt b a)) as [|Hn]; [by auto|].
  apply not_lt_le, le_lt_or_eq in Hn. tauto.
Qed.

End StrFacts.

(** Both dtypes are ordered. *)
#[global] Instance str_key_order : DtypeOrder string.
Proof.
  split.
  - apply StrFacts.lt_irrefl.
  - apply StrFacts.lt_trans.
  - apply StrFacts.lt_trichotomy.
Qed.

#[global] Instance int64_key_order : DtypeOrder Z.
Proof. split; simpl; intros; lia. Qed.

(** ** [sorted] sorts, permutes and is stable *)

Section SortedFacts.
Context {A : Type} (before : A → A → Prop) `{!∀ x y, Decision (before x y)}.

Lemma insert_stable_perm x l : insert_stable before x l ≡ₚ x :: l.
Proof.
  induction l as [|y l IH]; simpl; [done|].
  case_decide; [|done]. by rewrite IH, Permutation_swap.
Qed.

Lemma sorted_perm l : sorted before l ≡ₚ l.
Proof.
  induction l as [|x l IH]; simpl; [done|].
  fold (sorted before l). by rewrite insert_stable_perm, IH.
Qed.

Lemma elem_of_sorted x l : x ∈ sorted before l ↔ x ∈ l.
Proof. by rewrite sorted_perm. Qed.

Lemma length_sorted l : length (sorted before l) = length l.
Proof. by rewrite sorted_perm. Qed.

Lemma NoDup_sorted l : NoDup (sorted before l) ↔ NoDup l.
Proof. by rewrite sorted_perm. Qed.

Lemma sorted_nil_inv l : sorted before l = [] → l = [].
Proof. intros Hnil. apply Permutation_nil_r. by rewrite <-Hnil, sorted_perm. Qed.

(** Elements that the order does not separate keep their places. *)
Lemma insert_stable_filter (P : A → Prop) `{!∀ x, Decision (P x)} x l :
  (∀ a b, P a → P b → ¬ before a b) →
  filter P (insert_stable before x l) = filter P (x :: l).
Proof.
  intros HP. induction l as [|y l IH]; simpl; [done|].
  case_decide as Hyx; [|done].
  rewrite filter_cons, IH, !filter_cons.
  repeat case_decide; try done. exfalso. by apply (HP y x).
Qed.

Lemma sorted_filter (P : A → Prop) `{!∀ x, Decision (P x)} l :
  (∀ a b, P a → P b → ¬ before a b) →
  filter P (sorted before l) = filter P l.
Proof.
  intros HP. induction l as [|x l IH]; simpl; [done|].
  fold (sorted before l).
  by rewrite insert_stable_filter, !filter_cons, IH.
Qed.

Section Order.
Context (Hasym : ∀ x y, before x y → ¬ before y x).

Lemma insert_stable_HdRel a x l :
  (may_precede before) a x → HdRel (may_precede before) a l →
  HdRel (may_precede before) a (insert_stable before x l).
Proof.
  intros Hax [|y l' Hay]; simpl; [by constructor|].
  case_decide; by constructor.
Qed.

Lemma insert_stable_Sorted x l :
  Sorted (may_precede before) l → Sorted (may_precede before) (insert_stable before x l).
Proof.
  induction 1 as [|y l Hl IH Hhd]; simpl.
  - by repeat constructor.
  - case_decide as Hyx.
    + constructor; [done|]. apply insert_stable_HdRel; [|done].
      by apply Hasym.
    + by repeat constructor.
Qed.

Lemma sorted_Sorted l : Sorted (may_precede before) (sorted before l).
Proof.
  induction l as [|x l IH]; simpl; [constructor|].
  by apply insert_stable_Sorted.
Qed.

Lemma sorted_StronglySorted `{!Transitive (may_precede before)} l :
  StronglySorted (may_precede before) (sorted before l).
Proof. apply Sorted_StronglySorted; [done|apply sorted_Sorted]. Qed.
End Order.

End SortedFacts.

Lemma StronglySorted_take {A} (R : relation A) n l :
  StronglySorted R l → StronglySorted R (take n l).
Proof.
  intros Hl. rewrite <-(take_drop n l) in Hl.
  by apply StronglySorted_app_1_l in Hl.
Qed.

(** Sorting strings gives a nondecreasing list; without repeats it is
    increasing. *)
Lemma sorted_str_le l : StronglySorted Str.le (sorted Str.lt l).
Proof.
  assert (StronglySorted (may_precede Str.lt) (sorted Str.lt l)) as Hs.
  { apply sorted_StronglySorted.
    - apply StrFacts.lt_asym.
    - intros a b c. unfold may_precede.
      rewrite !StrFacts.not_lt_le. intros ??. by trans b. }
  induction Hs as [|a l' Hs IH Hall]; constructor; [done|].
  eapply Forall_impl; [done|]. intros b. apply StrFacts.not_lt_le.
Qed.

Lemma sorted_str_lt l : NoDup l → StronglySorted Str.lt (sorted Str.lt l).
Proof.
  intros Hnd%(NoDup_sorted Str.lt). pose proof (sorted_str_le l) as Hs.
  induction Hs as [|a l' Hs IH Hall]; [constructor|].
  apply NoDup_cons in Hnd as [Ha Hnd]. constructor; [by auto|].
  apply Forall_forall. intros b Hb. apply StrFacts.le_ne_lt.
  - by eapply Forall_forall in Hall.
  - by intros ->.
Qed.

Lemma sorted_str_gt l : NoDup l → StronglySorted Str.gt (sorted Str.gt l).
Proof.
  intros Hnd%(NoDup_sorted Str.gt).
  assert (StronglySorted (may_precede Str.gt) (sorted Str.gt l)) as Hs.
  { apply sorted_StronglySorted.
    - intros a b. apply StrFacts.lt_asym.
    - intros a b c. unfold may_precede, Str.gt.
      rewrite !StrFacts.not_lt_le. intros ??. by trans b. }
  induction Hs as [|a l' Hs IH Hall]; [constructor|].
  apply NoDup_cons in Hnd as [Ha Hnd]. constructor; [by auto|].
  apply Forall_forall. intros b Hb. apply StrFacts.le_ne_lt.
  - eapply Forall_forall in Hall; [|done]. by apply StrFacts.not_lt_le in Hall.
  - by intros ->.
Qed.

(** ** [unique] *)

Section Unique.
Context {A : Type} `{EqDecision A}.
Implicit Types (x : A) (l : list A).

Lemma elem_of_unique x l : x ∈ unique l ↔ x ∈ l.
Proof.
  induction l as [|y l IH]; simpl; [done|].
  rewrite !elem_of_cons, list_elem_of_filter, IH.
  destruct (decide (x = y)); naive_solver.
Qed.

Lemma NoDup_unique l : NoDup (unique l).
Proof.
  induction l as [|y l IH]; simpl; [constructor|].
  apply NoDup_cons. split; [|by apply NoDup_filter].
  rewrite list_elem_of_filter. naive_solver.
Qed.

Lemma unique_nil_inv l : unique l = [] → l = [].
Proof. by destruct l. Qed.

Lemma unique_snoc l x :
  unique (l ++ [x]) = if decide (x ∈ l) then unique l else unique l ++ [x].
Proof.
  induction l as [|y l IH]; simpl; [done|].
  rewrite IH. destruct (decide (x ∈ l)) as [Hin|Hin].
  - rewrite decide_True by (by right). done.
  - destruct (decide (x = y)) as [->|Hne].
    + rewrite decide_True by left.
      rewrite filter_app, filter_cons_False, filter_nil, app_nil_r; [done|].
      intros Hc. by apply Hc.
    + rewrite decide_False by (rewrite elem_of_cons; naive_solver).
      by rewrite filter_app, filter_cons_True.
Qed.

End Unique.

(** ** Small facts on lists *)

Lemma filter_all {A} (P : A → Prop) `{!∀ x, Decision (P x)} (l : list A) :
  Forall P l → filter P l = l.
Proof.
  induction 1 as [|x l Hx Hl IH]; [done|].
  by rewrite filter_cons_True, IH.
Qed.

Lemma filter_none {A} (P : A → Prop) `{!∀ x, Decision (P x)} (l : list A) :
  Forall (λ x, ¬ P x) l → filter P l = [].
Proof.
  induction 1 as [|x l Hx Hl IH]; [done|].
  by rewrite filter_cons_False, IH.
Qed.

Lemma filter_ext_in {A} (P Q : A → Prop)
    `{!∀ x, Decision (P x)} `{!∀ x, Decision (Q x)} (l : list A) :
  (∀ x, x ∈ l → P x ↔ Q x) → filter P l = filter Q l.
Proof.
  induction l as [|x l IH]; intros HPQ; [done|].
  rewrite !filter_cons, IH by (intros; apply HPQ; by right).
  pose proof (HPQ x (list_elem_of_here _ _)).
  repeat case_decide; naive_solver.
Qed.

Lemma StronglySorted_filter {A} (R : relation A) (P : A → Prop)
    `{!∀ x, Decision (P x)} (l : list A) :
  StronglySorted R l → StronglySorted R (filter P l).
Proof.
  induction 1 as [|x l Hl IH Hall]; [constructor|].
  rewrite filter_cons. case_decide; [|done].
  constructor; [done|]. rewrite Forall_forall in Hall |- *.
  intros y [_ Hy]%list_elem_of_filter. by apply Hall.
Qed.

(** ** Sorting keys of a dtype *)

Section DtypeFacts.
Context {K : Type} `{!Dtype K} `{!DtypeOrder K}.
Implicit Types (l : list K).

Lemma dtype_lt_asym (a b : K) : dtype_lt a b → ¬ dtype_lt b a.
Proof. intros H1 H2. apply (dtype_lt_irrefl a). by eapply dtype_lt_trans. Qed.

Lemma may_precede_dtype_trans : Transitive (may_precede (dtype_lt (K:=K))).
Proof.
  intros a b c Hab Hbc Hca. unfold may_precede in *.
  destruct (dtype_lt_total a b) as [Hlt|[->|Hlt]]; [|done..].
  apply Hbc. by eapply dtype_lt_trans.
Qed.

#[global] Instance may_precede_dtype_antisymm :
  AntiSymm (=) (may_precede (dtype_lt (K:=K))).
Proof.
  intros a b Hab Hba. unfold may_precede in *.
  by destruct (dtype_lt_total a b) as [?|[?|?]].
Qed.

Lemma sorted_dtype_may_precede l :
  StronglySorted (may_precede dtype_lt) (sorted dtype_lt l).
Proof.
  apply sorted_StronglySorted; [apply dtype_lt_asym|].
  apply may_precede_dtype_trans.
Qed.

(** Sorting keys without repeats gives an increasing list. *)
Lemma sorted_dtype_lt l : NoDup l → StronglySorted dtype_lt (sorted dtype_lt l).
Proof.
  intros Hnd%(NoDup_sorted dtype_lt). pose proof (sorted_dtype_may_precede l) as Hs.
  induction Hs as [|a l' Hs IH Hall]; [constructor|].
  apply NoDup_cons in Hnd as [Ha Hnd]. constructor; [by auto|].
  rewrite Forall_forall in Hall |- *. intros b Hb.
  destruct (dtype_lt_total a b) as [?|[->|Hlt]]; [done..|].
  by destruct (Hall b Hb).
Qed.

(** Sorting does not depend on the order of its input. *)
Lemma sorted_dtype_perm l1 l2 :
  l1 ≡ₚ l2 → sorted dtype_lt l1 = sorted dtype_lt l2.
Proof.
  intros Hperm.
  apply (StronglySorted_unique (may_precede dtype_lt));
    [apply sorted_dtype_may_precede..|].
  by rewrite !sorted_perm.
Qed.

(** Two increasing lists of keys with the same elements are equal. *)
Lemma dtype_sorted_ext l1 l2 :
  StronglySorted dtype_lt l1 → StronglySorted dtype_lt l2 →
  (∀ x, x ∈ l1 ↔ x ∈ l2) → l1 = l2.
Proof.
  intros H1. revert l2.
  induction H1 as [|x l1 H1 IH Hx]; intros l2 H2 Heq.
  - destruct l2 as [|y l2]; [done|].
    exfalso. eapply not_elem_of_nil, Heq. left.
  - destruct H2 as [|y l2 H2 Hy].
    { exfalso. eapply not_elem_of_nil, Heq. left. }
    rewrite Forall_forall in Hx, Hy.
    assert (x = y) as ->.
    { pose proof (proj1 (Heq x) (list_elem_of_here _ _)) as Hxy.
      pose proof (proj2 (Heq y) (list_elem_of_here _ _)) as Hyx.
      apply elem_of_cons in Hxy as [?|Hxy]; [done|].
      apply elem_of_cons in Hyx as [?|Hyx]; [done|].
      exfalso. eapply dtype_lt_asym; eauto. }
    f_equal. apply IH; [done|]. intros z. split; intros Hz.
    + pose proof (proj1 (Heq z) (list_elem_of_further _ _ _ Hz)) as Hz'.
      apply elem_of_cons in Hz' as [->|?]; [|done].
      exfalso. by eapply dtype_lt_irrefl, Hx.
    + pose proof (proj2 (Heq z) (list_elem_of_further _ _ _ Hz)) as Hz'.
      apply elem_of_cons in Hz' as [->|?]; [|done].
      exfalso. by eapply dtype_lt_irrefl, Hy.
Qed.

End DtypeFacts.

(** ** The counter *)

Section CounterFacts.
Implicit Types (c : Counter) (k : string * string) (it : list (string * string)).

Lemma count_of_incr k k' c :
  count_of (incr k c) k' =
    if decide (k = k') then S (count_of c k') else count_of c k'.
Proof.
  induction c as [|e c IH]; simpl.
  - by repeat case_decide.
  - destruct (decide (e.1 = k)) as [<-|Hne]; simpl.
    + by repeat case_decide.
    + rewrite IH. repeat case_decide; congruence.
Qed.

Lemma keys_incr k c :
  (incr k c).*1 = if decide (k ∈ c.*1) then c.*1 else c.*1 ++ [k].
Proof.
  induction c as [|e c IH]; [done|]. cbn [incr].
  destruct (decide (e.1 = k)) as [<-|Hne]; rewrite !fmap_cons.
  - by rewrite decide_True by left.
  - rewrite IH. destruct (decide (k ∈ c.*1)).
    + by rewrite decide_True by (by right).
    + by rewrite decide_False by (rewrite elem_of_cons; naive_solver).
Qed.

Lemma sum_incr k c : sum_list (incr k c).*2 = S (sum_list c.*2).
Proof.
  induction c as [|e c IH]; [done|]. cbn [incr].
  case_decide; rewrite !fmap_cons; simpl; [done|]. rewrite IH. lia.
Qed.

Lemma update_app c it1 it2 : update c (it1 ++ it2) = update (update c it1) it2.
Proof. apply foldl_app. Qed.

Lemma count_of_update k c it :
  count_of (update c it) k = count_of c k + length (filter (λ p, p = k) it).
Proof.
  revert c. induction it as [|p it IH]; intros c; simpl; [lia|].
  fold (update (incr p c) it). rewrite IH, count_of_incr, filter_cons.
  repeat case_decide; simpl; lia.
Qed.

Lemma keys_update c it l :
  c.*1 = unique l → (update c it).*1 = unique (l ++ it).
Proof.
  revert c l. induction it as [|p it IH]; intros c l Hc; simpl.
  - by rewrite app_nil_r.
  - fold (update (incr p c) it). rewrite (IH _ (l ++ [p])).
    + by rewrite <-app_assoc.
    + rewrite keys_incr, unique_snoc, Hc.
      destruct (decide (p ∈ l)).
      * by rewrite decide_True by (by apply elem_of_unique).
      * by rewrite decide_False by (by rewrite elem_of_unique).
Qed.

Lemma sum_update c it :
  sum_list (update c it).*2 = sum_list c.*2 + length it.
Proof.
  revert c. induction it as [|p it IH]; intros c; simpl; [lia|].
  fold (update (incr p c) it). rewrite IH, sum_incr. lia.
Qed.

Lemma count_of_elem c k n : NoDup c.*1 → (k, n) ∈ c → count_of c k = n.
Proof.
  induction c as [|e c IH]; simpl; intros Hnd Hin.
  - by apply not_elem_of_nil in Hin.
  - apply NoDup_cons in Hnd as [He Hnd].
    apply elem_of_cons in Hin as [<-|Hin]; simpl.
    + by rewrite decide_True.
    + rewrite decide_False; [by apply IH|].
      intros Hek. apply He. apply list_elem_of_fmap. by exists (k, n).
Qed.

Lemma elem_of_count_of c k : k ∈ c.*1 → (k, count_of c k) ∈ c.
Proof.
  induction c as [|[k' n] c IH]; simpl; intros Hin.
  - by apply not_elem_of_nil in Hin.
  - case_decide as Hk; simplify_eq/=; [left|].
    apply elem_of_cons in Hin as [?|Hin]; [done|]. right. by apply IH.
Qed.

(** The loop of lines 235-237 is one [update] with all the pairs. *)
Lemma pair_counts_all_pairs bs : pair_counts bs = update [] (all_pairs bs).
Proof.
  unfold pair_counts, all_pairs. generalize ([] : Counter).
  induction bs as [|b bs IH]; intros c; simpl; [done|].
  by rewrite IH, update_app.
Qed.

Lemma keys_pair_counts bs : (pair_counts bs).*1 = unique (all_pairs bs).
Proof. rewrite pair_counts_all_pairs. by apply (keys_update [] _ []). Qed.

Lemma NoDup_keys_pair_counts bs : NoDup (pair_counts bs).*1.
Proof. rewrite keys_pair_counts. apply NoDup_unique. Qed.

Lemma count_of_pair_counts bs k :
  count_of (pair_counts bs) k = length (filter (λ p, p = k) (all_pairs bs)).
Proof. by rewrite pair_counts_all_pairs, count_of_update. Qed.

Lemma sum_pair_counts bs :
  sum_list (pair_counts bs).*2 = length (all_pairs bs).
Proof. by rewrite pair_counts_all_pairs, sum_update. Qed.

Lemma elem_of_pair_counts bs k n :
  (k, n) ∈ pair_counts bs →
  k ∈ all_pairs bs ∧ n = length (filter (λ p, p = k) (all_pairs bs)).
Proof.
  intros Hin. split.
  - apply (elem_of_unique k). rewrite <-keys_pair_counts.
    apply list_elem_of_fmap. by exists (k, n).
  - rewrite <-count_of_pair_counts. symmetry.
    apply count_of_elem; [apply NoDup_keys_pair_counts|done].
Qed.

End CounterFacts.

(** ** [combinations2] *)

Section Combinations.
Context {A : Type}.
Implicit Types (l : list A).

Lemma elem_of_combinations2_cons a b x l :
  (a, b) ∈ combinations2 (x :: l) ↔ (a = x ∧ b ∈ l) ∨ (a, b) ∈ combinations2 l.
Proof.
  simpl. rewrite elem_of_app, list_elem_of_fmap. naive_solver.
Qed.

(** The pairs are those of two positions [i < j]. *)
Lemma elem_of_combinations2 a b l :
  (a, b) ∈ combinations2 l ↔
    ∃ i j, i < j ∧ l !! i = Some a ∧ l !! j = Some b.
Proof.
  induction l as [|x l IH].
  - simpl. rewrite elem_of_nil. naive_solver.
  - rewrite elem_of_combinations2_cons, IH. split.
    + intros [[-> [j Hj]%list_elem_of_lookup_1]|(i & j & Hij & Hi & Hj)].
      * exists 0, (S j). split; [lia|done].
      * exists (S i), (S j). split; [lia|done].
    + intros (i & j & Hij & Hi & Hj). destruct j as [|j]; [lia|].
      destruct i as [|i]; simplify_eq/=.
      * left. split; [done|]. by eapply list_elem_of_lookup_2.
      * right. exists i, j. split; [lia|done].
Qed.

Lemma combinations2_elems a b l : (a, b) ∈ combinations2 l → a ∈ l ∧ b ∈ l.
Proof.
  intros (i & j & _ & Hi & Hj)%elem_of_combinations2.
  split; by eapply list_elem_of_lookup_2.
Qed.

Lemma combinations2_sorted (R : relation A) a b l :
  StronglySorted R l → (a, b) ∈ combinations2 l → R a b.
Proof.
  induction 1 as [|x l Hl IH Hx]; [by intros ?%elem_of_nil|].
  intros [[-> Hb]|Hin]%elem_of_combinations2_cons; [|by auto].
  rewrite Forall_forall in Hx. by apply Hx.
Qed.

Lemma length_combinations2_double l :
  2 * length (combinations2 l) = length l * (length l - 1).
Proof.
  induction l as [|x l IH]; simpl; [done|].
  rewrite length_app, length_fmap, Nat.sub_0_r. nia.
Qed.

(** A list of [n] elements has [n * (n - 1) / 2] pairs. *)
Lemma length_combinations2 l :
  length (combinations2 l) = length l * (length l - 1) / 2.
Proof.
  rewrite <-length_combinations2_double, Nat.mul_comm. by rewrite Nat.div_mul.
Qed.

Lemma NoDup_combinations2 l : NoDup l → NoDup (combinations2 l).
Proof.
  induction 1 as [|x l Hx Hl IH]; simpl; [constructor|].
  apply NoDup_app. split_and!; [| |done].
  - apply NoDup_fmap_2; [|done]. by intros ?? [=].
  - intros [a b] [y [[= -> ->] _]]%list_elem_of_fmap [? _]%combinations2_elems.
    done.
Qed.

End Combinations.

Lemma count_NoDup {A} `{EqDecision A} (k : A) (l : list A) :
  NoDup l → length (filter (λ p, p = k) l) = if decide (k ∈ l) then 1 else 0.
Proof.
  induction 1 as [|x l Hx Hl IH]; [done|].
  destruct (decide (x = k)) as [->|Hne].
  - rewrite filter_cons_True by done. simpl. rewrite IH.
    destruct (decide (k ∈ l)); [done|]. by rewrite decide_True by left.
  - rewrite filter_cons_False, IH by done. destruct (decide (k ∈ l)).
    + by rewrite decide_True by (by right).
    + by rewrite decide_False by (rewrite elem_of_cons; naive_solver).
Qed.

(** In a basket without repeated sku, the pairs are the [a < b] with
    both in the basket, once each. *)
Lemma combinations2_basket (products : list string) a b :
  NoDup products →
  (a, b) ∈ combinations2 (sorted Str.lt products) ↔
    Str.lt a b ∧ a ∈ products ∧ b ∈ products.
Proof.
  intros Hnd. pose proof (sorted_str_lt products Hnd) as Hs.
  rewrite <-!(elem_of_sorted Str.lt _ products).
  induction Hs as [|x l Hl IH Hx].
  - simpl. rewrite !elem_of_nil. naive_solver.
  - rewrite elem_of_combinations2_cons, IH, !elem_of_cons.
    rewrite Forall_forall in Hx. split.
    + intros [[-> Hb]|(?&?&?)]; [|by auto]. auto.
    + intros (Hab & [->|Ha] & [->|Hb]); [| by auto | | by auto].
      * by apply StrFacts.lt_irrefl in Hab.
      * exfalso. eapply StrFacts.lt_asym; [exact Hab|]. by apply Hx.
Qed.

Lemma count_combinations2_basket (products : list string) a b :
  NoDup products →
  length (filter (λ p, p = (a, b)) (combinations2 (sorted Str.lt products))) =
    if decide (Str.lt a b ∧ a ∈ products ∧ b ∈ products) then 1 else 0.
Proof.
  intros Hnd. rewrite count_NoDup.
  - pose proof (combinations2_basket products a b Hnd).
    repeat case_decide; tauto.
  - by apply NoDup_combinations2, NoDup_sorted.
Qed.

(** ** Grouping by order *)

Section GroupKeys.
Context {K T : Type} `{!Dtype T} `{!DtypeOrder T}.
Implicit Types (df : DataFrame K) (key : Row K → T).

Lemma elem_of_group_keys key df x :
  x ∈ group_keys key df ↔ ∃ r, r ∈ df ∧ key r = x.
Proof.
  unfold group_keys. rewrite elem_of_sorted, elem_of_unique, list_elem_of_fmap.
  naive_solver.
Qed.

Lemma group_keys_sorted key df : StronglySorted dtype_lt (group_keys key df).
Proof. apply sorted_dtype_lt, NoDup_unique. Qed.

Lemma NoDup_group_keys key df : NoDup (group_keys key df).
Proof. apply NoDup_sorted, NoDup_unique. Qed.

Lemma group_keys_perm key df : group_keys key df ≡ₚ unique (key <$> df).
Proof. apply sorted_perm. Qed.

End GroupKeys.

Section GroupFacts.
Context {K : Type} `{!Dtype K} `{!DtypeOrder K}.
Implicit Types (df : DataFrame K) (o : K).

Lemma order_rows_nonempty df o :
  0 < length (order_rows df o) ↔ o ∈ group_keys order_id df.
Proof.
  rewrite elem_of_group_keys. unfold order_rows. split.
  - destruct (filter _ df) as [|r rs] eqn:Hf; simpl; [lia|]. intros _.
    assert (r ∈ filter (λ r, order_id r = o) df) as Hr by (rewrite Hf; left).
    apply list_elem_of_filter in Hr. naive_solver.
  - intros (r & Hr & Ho).
    assert (r ∈ filter (λ r, order_id r = o) df) as Hr'
      by (by apply list_elem_of_filter).
    destruct (filter _ df); [by apply elem_of_nil in Hr'|simpl; lia].
Qed.

Lemma multi_item_orders_retained df : multi_item_orders df = retained_orders df.
Proof.
  unfold multi_item_orders, retained_orders, order_counts, order_rows.
  induction (group_keys order_id df) as [|o l IH]; [done|].
  rewrite fmap_cons, !filter_cons. simpl.
  case_decide; [rewrite fmap_cons|]; by rewrite IH.
Qed.

Lemma elem_of_retained df o :
  o ∈ retained_orders df ↔ 1 < length (order_rows df o).
Proof.
  unfold retained_orders. rewrite list_elem_of_filter, <-order_rows_nonempty.
  split; [tauto|]. intros. split; [done|lia].
Qed.

Lemma retained_sorted df : StronglySorted dtype_lt (retained_orders df).
Proof. apply StronglySorted_filter, group_keys_sorted. Qed.

Lemma order_rows_df_basket df o :
  order_rows (df_basket df) o =
    if decide (1 < length (order_rows df o)) then order_rows df o else [].
Proof.
  unfold df_basket at 1. unfold order_rows at 1.
  rewrite multi_item_orders_retained, list_filter_filter.
  case_decide as Ho.
  - apply filter_ext_in. intros r _. split; [tauto|].
    intros Hr. split; [done|]. rewrite Hr. by apply elem_of_retained.
  - apply filter_none, Forall_forall. intros r _ [Hr Hin].
    apply Ho. apply elem_of_retained. by rewrite <-Hr.
Qed.

Lemma group_keys_df_basket df :
  group_keys order_id (df_basket df) = retained_orders df.
Proof.
  apply dtype_sorted_ext; [apply group_keys_sorted|apply retained_sorted|].
  intros o. rewrite <-order_rows_nonempty, order_rows_df_basket, elem_of_retained.
  case_decide; simpl; lia.
Qed.

(** Line 233 yields the baskets of the retained orders, in the order of
    their [order_id]. *)
Lemma baskets_df_basket df :
  baskets (df_basket df) = basket_of df <$> retained_orders df.
Proof.
  unfold baskets. rewrite group_keys_df_basket. apply list_fmap_ext.
  intros i o Ho%list_elem_of_lookup_2%elem_of_retained.
  fold (order_rows (df_basket df) o). rewrite order_rows_df_basket.
  by rewrite decide_True.
Qed.

Lemma df_basket_nil df : df_basket df = [] ↔ retained_orders df = [].
Proof.
  rewrite <-group_keys_df_basket. unfold group_keys. split.
  - by intros ->.
  - intros H%sorted_nil_inv%unique_nil_inv. by apply fmap_nil_inv in H.
Qed.

(** The guard of line 232 only skips a computation that would count
    nothing. *)
Lemma countPairs_unguarded topK df :
  countPairs topK df =
    most_common topK (pair_counts (basket_of df <$> retained_orders df)).
Proof.
  unfold countPairs. case_decide as Hnil; [|by rewrite baskets_df_basket].
  apply df_basket_nil in Hnil. rewrite Hnil. by destruct topK.
Qed.

End GroupFacts.

(** ** [most_common] *)

Section MostCommonFacts.
Implicit Types (c : Counter) (e : (string * string) * nat).

Lemma count_gt_asym e1 e2 : count_gt e1 e2 → ¬ count_gt e2 e1.
Proof. unfold count_gt. lia. Qed.

Lemma may_precede_count_ge e1 e2 : may_precede count_gt e1 e2 ↔ count_ge e1 e2.
Proof. unfold may_precede, count_gt, count_ge. lia. Qed.

Lemma sorted_count_ge c : StronglySorted count_ge (sorted count_gt c).
Proof.
  assert (StronglySorted (may_precede count_gt) (sorted count_gt c)) as Hs.
  { apply sorted_StronglySorted; [apply count_gt_asym|].
    intros e1 e2 e3. rewrite !may_precede_count_ge. unfold count_ge. lia. }
  induction Hs as [|e l Hs IH Hall]; constructor; [done|].
  eapply Forall_impl; [done|]. intros e'. apply may_precede_count_ge.
Qed.

Lemma most_common_sorted n c : StronglySorted count_ge (most_common n c).
Proof. apply StronglySorted_take, sorted_count_ge. Qed.

Lemma most_common_length n c : length (most_common n c) = n `min` length c.
Proof. unfold most_common. by rewrite length_take, length_sorted. Qed.

Lemma most_common_elem e n c : e ∈ most_common n c → e ∈ c.
Proof.
  unfold most_common. intros He. apply (elem_of_sorted count_gt).
  by eapply subseteq_take.
Qed.

(** What is cut off has no larger count than what is kept. *)
Lemma most_common_top n c e e' :
  e ∈ most_common n c → e' ∈ c → e' ∉ most_common n c → count_ge e e'.
Proof.
  unfold most_common. intros He He' Hne'.
  pose proof (sorted_count_ge c) as Hs.
  rewrite <-(take_drop n (sorted count_gt c)) in Hs.
  eapply StronglySorted_app_1_elem_of; [done..|].
  apply (elem_of_sorted count_gt) in He'.
  rewrite <-(take_drop n (sorted count_gt c)) in He'.
  apply elem_of_app in He' as [?|?]; done.
Qed.

(** Entries with equal counts come out in the order of the counter, that
    is in the order in which their keys were first inserted. *)
Lemma most_common_stable n c v :
  filter (λ e, e.2 = v) (most_common n c) `prefix_of` filter (λ e, e.2 = v) c.
Proof.
  unfold most_common.
  rewrite <-(sorted_filter count_gt (λ e, e.2 = v) c).
  - rewrite <-(take_drop n (sorted count_gt c)) at 2.
    rewrite filter_app. by apply prefix_app_r.
  - intros e1 e2 H1 H2. unfold count_gt. lia.
Qed.

End MostCommonFacts.

(** ** Counting pairs per order *)

Section PairFacts.
Context {K : Type} `{!Dtype K} `{!DtypeOrder K}.
Implicit Types (df : DataFrame K) (o : K) (a b : string) (k : string * string).

Lemma count_all_pairs k bs :
  length (filter (λ p, p = k) (all_pairs bs)) =
    sum_list ((λ products,
                 length (filter (λ p, p = k)
                                (combinations2 (sorted Str.lt products))))
                <$> bs).
Proof.
  unfold all_pairs. induction bs as [|products bs IH]; simpl; [done|].
  rewrite filter_app, length_app. f_equal. exact IH.
Qed.

Lemma sum_indicator {A} (P : A → Prop) `{!∀ x, Decision (P x)} (l : list A) :
  sum_list ((λ x, if decide (P x) then 1 else 0) <$> l) = length (filter P l).
Proof.
  induction l as [|x l IH]; simpl; [done|].
  rewrite filter_cons. case_decide; simpl; f_equal; exact IH.
Qed.

Lemma two_elems_length {A} (x y : A) (l : list A) :
  x ∈ l → y ∈ l → x ≠ y → 1 < length l.
Proof.
  destruct l as [|z [|z' l]]; simpl; [by intros ?%elem_of_nil| |lia].
  rewrite !list_elem_of_singleton. congruence.
Qed.

Lemma elem_of_all_pairs k bs :
  k ∈ all_pairs bs ↔
    ∃ products, products ∈ bs ∧ k ∈ combinations2 (sorted Str.lt products).
Proof.
  unfold all_pairs. induction bs as [|products bs IH]; simpl.
  - rewrite elem_of_nil. split; [done|]. by intros (? & ?%elem_of_nil & _).
  - rewrite elem_of_app, IH. setoid_rewrite elem_of_cons. naive_solver.
Qed.

(** Every counted pair is in nondecreasing order. *)
Lemma all_pairs_le a b bs : (a, b) ∈ all_pairs bs → Str.le a b.
Proof.
  intros (products & _ & Hk)%elem_of_all_pairs.
  eapply combinations2_sorted; [apply sorted_str_le|done].
Qed.

Lemma both_retained df o a b :
  a ≠ b → a ∈ basket_of df o → b ∈ basket_of df o → o ∈ retained_orders df.
Proof.
  intros Hne Ha Hb. apply elem_of_retained.
  pose proof (two_elems_length a b _ Ha Hb Hne) as Hlen.
  unfold basket_of in Hlen. by rewrite length_fmap in Hlen.
Qed.

Lemma orders_with_both_retained df a b :
  a ≠ b →
  length (filter (λ o, a ∈ basket_of df o ∧ b ∈ basket_of df o)
                 (retained_orders df)) =
    length (orders_with_both df a b).
Proof.
  intros Hne. unfold retained_orders, orders_with_both.
  rewrite list_filter_filter_l.
  - by rewrite (group_keys_perm order_id df).
  - intros o [Ha Hb]. by eapply elem_of_retained, both_retained.
Qed.

End PairFacts.

Lemma NoDup_fmap_elem_inj {A B} (f : A → B) (l : list A) x y :
  NoDup (f <$> l) → x ∈ l → y ∈ l → f x = f y → x = y.
Proof.
  induction l as [|z l IH]; [by intros _ ?%elem_of_nil|].
  rewrite fmap_cons, NoDup_cons, !elem_of_cons, list_elem_of_fmap.
  intros [Hz Hnd] [->|Hx] [->|Hy] Hf; [done| | |by auto].
  - destruct Hz. eauto.
  - destruct Hz. eauto.
Qed.

Lemma line_keys_basket {K : Type} `{!Dtype K} (df : DataFrame K) (o : K) :
  NoDup (line_keys df) → NoDup (basket_of df o).
Proof.
  intros Hnd. unfold basket_of, order_rows.
  apply NoDup_fmap_2_strong.
  - intros r1 r2 [Ho1 Hr1]%list_elem_of_filter [Ho2 Hr2]%list_elem_of_filter Hs.
    eapply (NoDup_fmap_elem_inj _ df); [exact Hnd|done..|]. simpl. congruence.
  - apply NoDup_filter. by eapply NoDup_fmap_1.
Qed.

Lemma countPairs_elem {K : Type} `{!Dtype K} `{!DtypeOrder K} topK (df : DataFrame K) k n :
  (k, n) ∈ countPairs topK df →
  k ∈ all_pairs (basket_of df <$> retained_orders df) ∧
  n = sum_list (pairs_in_order df k <$> retained_orders df).
Proof.
  rewrite countPairs_unguarded.
  intros [Hin ->]%most_common_elem%elem_of_pair_counts. split; [done|].
  by rewrite count_all_pairs, <-list_fmap_compose.
Qed.

(** ** C1: what a count counts *)

(** C1, as amended.  The count of a returned pair (a, b) is the sum,
    over the retained orders, of the number of times the pair comes out
    of the 2-combinations of the order's sorted skus.  When no order
    has a sku on more than one line, [a < b] and the count is the number
    of distinct order_ids in which both a and b appear. *)
Theorem pair_count_per_order {K : Type} `{!Dtype K} `{!DtypeOrder K} 
    (topK : nat) (df : DataFrame K) (a b : string) (n : nat) :
  ((a, b), n) ∈ countPairs topK df →
  n = sum_list (pairs_in_order df (a, b) <$> retained_orders df) ∧
  (NoDup (line_keys df) →
   Str.lt a b ∧ n = length (orders_with_both df a b)).
Proof.
  intros [Hin Hn]%countPairs_elem. split; [done|]. intros Hnd.
  assert (Str.lt a b) as Hlt.
  { apply elem_of_all_pairs in Hin as (? & (o & -> & _)%list_elem_of_fmap & Hk).
    apply combinations2_basket in Hk as [? _]; [done|].
    by apply line_keys_basket. }
  split; [done|]. subst n.
  rewrite <-orders_with_both_retained by (by apply StrFacts.lt_ne).
  rewrite <-sum_indicator. f_equal. apply list_fmap_ext. intros i o _.
  unfold pairs_in_order.
  rewrite count_combinations2_basket by (by apply line_keys_basket).
  repeat case_decide; tauto.
Qed.

Lemma pair_count_per_order_witness :
  Str.lt "X" "Y" ∧ 2 = length (orders_with_both ex2 "X" "Y").
Proof.
  apply (pair_count_per_order 20 ex2 "X" "Y" 2).
  - vm_compute. left.
  - by apply (bool_decide_unpack _).
Defined.

(** C1 as stated fails: with the same sku on two lines of an order the
    self-pair (A, A) is returned, and (A, B) is counted twice for the
    one order that holds both. *)
Example one_order_repeat_pairs :
  df_pairs one_order_repeat = [(("A", "B"), 2); (("A", "A"), 1)].
Proof. reflexivity. Qed.

Lemma pair_count_repeated_sku :
  ¬ (∀ a b n, ((a, b), n) ∈ df_pairs one_order_repeat →
              a ≠ b ∧ n = length (orders_with_both one_order_repeat a b)).
Proof.
  intros H. destruct (H "A" "B" 2) as [_ Hn].
  - vm_compute. left.
  - vm_compute in Hn. discriminate Hn.
Qed.

(** ** C3: the order and the length of the result *)

(** C3, as amended.  The baskets are those of the retained orders, in
    ascending order of the order_ids (as numbers when the ids are
    numbers, as text when they are text).  For every [topK], the result
    is sorted by count, larger first; it has [min topK d] entries, [d]
    being the number of distinct pairs observed; entries with equal
    counts stand in the order in which their pairs were first counted
    (basket after basket, the pairs of a basket in the order of
    [combinations]), not in the lexicographic order of the pairs; and
    what is cut off has no larger count than what is returned.  The
    dashboard calls it with [topK = 20]. *)
Theorem countPairs_order {K : Type} `{!Dtype K} `{!DtypeOrder K} 
    (topK : nat) (df : DataFrame K) :
  let observed := all_pairs (baskets (df_basket df)) in
  let counted := pair_counts (baskets (df_basket df)) in
  let out := countPairs topK df in
  baskets (df_basket df) = basket_of df <$> retained_orders df ∧
  StronglySorted dtype_lt (retained_orders df) ∧
  StronglySorted count_ge out ∧
  length out = topK `min` length (unique observed) ∧
  counted.*1 = unique observed ∧
  (∀ v, filter (λ e, e.2 = v) out `prefix_of` filter (λ e, e.2 = v) counted) ∧
  (∀ e e', e ∈ out → e' ∈ counted → e' ∉ out → count_ge e e').
Proof.
  simpl. rewrite countPairs_unguarded, baskets_df_basket. split_and!.
  - done.
  - apply retained_sorted.
  - apply most_common_sorted.
  - by rewrite most_common_length, <-keys_pair_counts, length_fmap.
  - apply keys_pair_counts.
  - intros v. apply most_common_stable.
  - intros e e'. apply most_common_top.
Qed.

Lemma countPairs_order_witness :
  count_ge (("C", "D"), 1) (("A", "B"), 1).
Proof.
  destruct (countPairs_order 1 orders_9_10) as (_ & _ & _ & _ & _ & _ & Htop).
  apply Htop.
  - vm_compute. left.
  - vm_compute. right. left.
  - by apply (bool_decide_unpack _).
Defined.

Example two_orders_tie_pairs :
  df_pairs two_orders_tie = [(("C", "D"), 1); (("A", "B"), 1)].
Proof. reflexivity. Qed.

(** C3 as stated fails on the tie-break: two pairs with the same count
    come out in the order of their orders, (C, D) before (A, B). *)
Lemma ties_not_lexicographic : ¬ Sorted count_then_lex (df_pairs two_orders_tie).
Proof. by apply (bool_decide_eq_false_1 _). Qed.

(** ** C4: orders with a single line *)

Section Discard.
Context {K : Type} `{!Dtype K} `{!DtypeOrder K}.
Implicit Types (df : DataFrame K) (o : K).

Lemma order_rows_without df o o' :
  order_rows (filter (λ r, order_id r ≠ o) df) o' =
    if decide (o' = o) then [] else order_rows df o'.
Proof.
  unfold order_rows. rewrite list_filter_filter. case_decide as Ho.
  - apply filter_none, Forall_forall. intros r _ [H1 H2]. congruence.
  - apply filter_ext_in. intros r _. split; [tauto|]. intros <-. done.
Qed.

Lemma retained_without df o :
  length (order_rows df o) < 2 →
  retained_orders (filter (λ r, order_id r ≠ o) df) = retained_orders df.
Proof.
  intros Hlen. apply dtype_sorted_ext; [apply retained_sorted..|].
  intros o'. rewrite !elem_of_retained, order_rows_without.
  case_decide as Ho; [subst o'; simpl; lia|done].
Qed.

Lemma baskets_without df o :
  length (order_rows df o) < 2 →
  baskets (df_basket (filter (λ r, order_id r ≠ o) df)) = baskets (df_basket df).
Proof.
  intros Hlen. rewrite !baskets_df_basket, retained_without by done.
  apply list_fmap_ext. intros i o' Ho'%list_elem_of_lookup_2%elem_of_retained.
  unfold basket_of. rewrite order_rows_without.
  case_decide; [subst o'; lia|done].
Qed.

End Discard.

(** C4, as amended.  Every basket that reaches the pair enumeration has
    at least two line items, and an order with fewer than two line items
    contributes nothing: it is not among the grouped orders and the
    result is the same as without its rows. *)
Theorem single_line_orders_discarded {K : Type} `{!Dtype K} `{!DtypeOrder K} 
    (topK : nat) (df : DataFrame K) :
  Forall (λ products, 2 ≤ length products) (baskets (df_basket df)) ∧
  (∀ o, length (order_rows df o) < 2 →
        (o ∉ group_keys order_id (df_basket df)) ∧
        countPairs topK (filter (λ r, order_id r ≠ o) df) = countPairs topK df).
Proof.
  split.
  - rewrite baskets_df_basket, Forall_fmap, Forall_forall.
    intros o Ho%elem_of_retained. simpl. unfold basket_of.
    rewrite length_fmap. lia.
  - intros o Hlen. split.
    + rewrite group_keys_df_basket, elem_of_retained. lia.
    + rewrite !countPairs_unguarded, <-!baskets_df_basket.
      by rewrite baskets_without.
Qed.

Lemma single_line_orders_discarded_witness :
  ("o2" ∉ group_keys order_id (df_basket ex1)) ∧
  countPairs 20 (filter (λ r, order_id r ≠ "o2") ex1) = countPairs 20 ex1.
Proof.
  apply (proj2 (@single_line_orders_discarded string str_key _ 20 ex1) "o2").
  vm_compute. lia.
Defined.

Example one_order_one_sku_pairs :
  df_pairs one_order_one_sku = [(("A", "A"), 1)].
Proof. reflexivity. Qed.

(** C4 as stated fails: an order with one distinct product on two lines
    is kept and contributes the self-pair. *)
Lemma one_product_order_contributes :
  ¬ (∀ o, length (unique (basket_of one_order_one_sku o)) = 1 →
          df_pairs (filter (λ r, order_id r ≠ o) one_order_one_sku) =
            df_pairs one_order_one_sku).
Proof. intros H. specialize (H "o1" eq_refl). vm_compute in H. discriminate H. Qed.

(** ** C9: the shape of a counted pair *)

Section Twice.
Context {A : Type} `{EqDecision A}.
Implicit Types (l : list A).

Lemma twice_positions a l :
  2 ≤ length (filter (λ x, x = a) l) ↔
    ∃ i j, i < j ∧ l !! i = Some a ∧ l !! j = Some a.
Proof.
  induction l as [|x l IH].
  - simpl. split; [lia|]. by intros (i & j & _ & ? & _).
  - rewrite filter_cons. split.
    + intros Hlen. case_decide as Hx; simpl in Hlen.
      * subst x. destruct (filter _ l) as [|y ys] eqn:Hf; simpl in Hlen; [lia|].
        assert (y ∈ filter (λ x, x = a) l) as [-> Hy]%list_elem_of_filter
          by (rewrite Hf; left).
        apply list_elem_of_lookup_1 in Hy as [j Hj].
        exists 0, (S j). split; [lia|done].
      * apply IH in Hlen as (i & j & ? & ? & ?).
        exists (S i), (S j). split; [lia|done].
    + intros (i & j & Hij & Hi & Hj). destruct j as [|j]; [lia|].
      destruct i as [|i]; simplify_eq/=.
      * rewrite decide_True by done. simpl.
        assert (a ∈ filter (λ x, x = a) l) as Hin.
        { apply list_elem_of_filter. split; [done|].
          by eapply list_elem_of_lookup_2. }
        destruct (filter _ l); [by apply elem_of_nil in Hin|simpl; lia].
      * assert (2 ≤ length (filter (λ x, x = a) l)) as Hlen.
        { apply IH. exists i, j. split; [lia|done]. }
        case_decide; simpl; lia.
Qed.

End Twice.

Lemma self_pair_twice (a : string) (products : list string) :
  (a, a) ∈ combinations2 (sorted Str.lt products) ↔
    2 ≤ length (filter (λ s, s = a) products).
Proof.
  rewrite elem_of_combinations2, <-twice_positions.
  by rewrite (sorted_perm Str.lt products).
Qed.

(** C9.  Every returned pair (a, b) has [a <= b]; [a = b] happens only
    through an order that has the sku on two of its lines, and every
    such order makes the self-pair a counted key. *)
Theorem pairs_nondecreasing {K : Type} `{!Dtype K} `{!DtypeOrder K} :
  (∀ topK (df : DataFrame K) a b n,
     ((a, b), n) ∈ countPairs topK df → Str.le a b) ∧
  (∀ topK (df : DataFrame K) a n, ((a, a), n) ∈ countPairs topK df →
     ∃ o, o ∈ retained_orders df ∧
          2 ≤ length (filter (λ s, s = a) (basket_of df o))) ∧
  (∀ (df : DataFrame K) a o,
     2 ≤ length (filter (λ s, s = a) (basket_of df o)) →
     (a, a) ∈ (pair_counts (baskets (df_basket df))).*1).
Proof.
  split_and!.
  - intros topK df a b n [Hin _]%countPairs_elem. by eapply all_pairs_le.
  - intros topK df a n [Hin _]%countPairs_elem.
    apply elem_of_all_pairs in Hin as (? & (o & -> & Ho)%list_elem_of_fmap & Hk).
    exists o. split; [done|]. by apply self_pair_twice.
  - intros df a o Hlen.
    rewrite keys_pair_counts, elem_of_unique, baskets_df_basket.
    apply elem_of_all_pairs. exists (basket_of df o). split.
    + apply list_elem_of_fmap_2, elem_of_retained.
      pose proof (length_filter (λ s, s = a) (basket_of df o)) as Hle.
      unfold basket_of in Hle at 2. rewrite length_fmap in Hle. lia.
    + by apply self_pair_twice.
Qed.

Lemma pairs_nondecreasing_witness :
  Str.le "X" "Z" ∧
  (∃ o, o ∈ retained_orders one_order_one_sku ∧
        2 ≤ length (filter (λ s, s = "A") (basket_of one_order_one_sku o))) ∧
  ("A", "A") ∈ (pair_counts (baskets (df_basket one_order_one_sku))).*1.
Proof.
  destruct (pairs_nondecreasing (K:=string)) as (H1 & H2 & H3). split_and!.
  - apply (H1 20 ex2 "X" "Z" 1). vm_compute. right. left.
  - apply (H2 20 one_order_one_sku "A" 1). vm_compute. left.
  - apply (H3 one_order_one_sku "A" "o1"). vm_compute. lia.
Defined.

(** ** C10: the total of the counts *)

Lemma length_all_pairs bs :
  length (all_pairs bs) =
    sum_list ((λ products, length products * (length products - 1) / 2) <$> bs).
Proof.
  unfold all_pairs. induction bs as [|products bs IH]; simpl; [done|].
  rewrite length_app, length_combinations2, length_sorted. f_equal. exact IH.
Qed.

(** C10.  The counts of all counted pairs add up to the sum, over the
    retained orders, of [n * (n - 1) / 2], [n] being the number of line
    items of the order. *)
Theorem pair_counts_total {K : Type} `{!Dtype K} `{!DtypeOrder K} (df : DataFrame K) :
  sum_list (pair_counts (baskets (df_basket df))).*2 =
    sum_list ((λ o, let n := length (order_rows df o) in n * (n - 1) / 2)
                <$> retained_orders df).
Proof.
  rewrite sum_pair_counts, length_all_pairs, baskets_df_basket.
  rewrite <-list_fmap_compose. f_equal. apply list_fmap_ext. intros i o _.
  simpl. unfold basket_of. by rewrite length_fmap.
Qed.

Lemma pair_counts_total_witness :
  sum_list (pair_counts (baskets (df_basket one_order_repeat))).*2 = 3.
Proof. rewrite (pair_counts_total one_order_repeat). reflexivity. Defined.
(** ** int64 sums *)

Section Int64Facts.
Implicit Types (a b z : Z) (cells : list Z).

Lemma wrap_in_range z : Int64.in_range z → Int64.wrap z = z.
Proof.
  unfold Int64.in_range, Int64.wrap, Int64.half, Int64.modulus. intros Hz.
  rewrite Z.mod_small; lia.
Qed.

Lemma wrap_range z : Int64.in_range (Int64.wrap z).
Proof.
  unfold Int64.in_range, Int64.wrap, Int64.half, Int64.modulus.
  pose proof (Z.mod_pos_bound (z + 9223372036854775808) 18446744073709551616).
  lia.
Qed.

Lemma wrap_add_l a b : Int64.wrap (Int64.wrap a + b) = Int64.wrap (a + b).
Proof.
  unfold Int64.wrap. f_equal.
  replace ((a + Int64.half) `mod` Int64.modulus - Int64.half + b + Int64.half)%Z
    with ((a + Int64.half) `mod` Int64.modulus + b)%Z by lia.
  rewrite Z.add_mod_idemp_l by done. f_equal. lia.
Qed.

Lemma wrap_add_r a b : Int64.wrap (a + Int64.wrap b) = Int64.wrap (a + b).
Proof. by rewrite Z.add_comm, wrap_add_l, Z.add_comm. Qed.

Lemma wrap_wrap z : Int64.wrap (Int64.wrap z) = Int64.wrap z.
Proof. apply wrap_in_range, wrap_range. Qed.

Lemma foldl_add a cells :
  foldl Int64.add a cells =
    match cells with
    | [] => a
    | _ => Int64.wrap (a + exact_sum cells)
    end.
Proof.
  revert a. induction cells as [|x cells IH]; intros a; [done|].
  cbn [foldl]. rewrite IH. unfold Int64.add, exact_sum. cbn [foldr].
  destruct cells as [|y cells]; cbn [foldr].
  - f_equal. lia.
  - rewrite wrap_add_l. f_equal. lia.
Qed.

(** An int64 sum is the sum of the numbers, wrapped around. *)
Lemma sum_wrap cells : Int64.sum cells = Int64.wrap (exact_sum cells).
Proof. unfold Int64.sum. rewrite foldl_add. by destruct cells. Qed.

(** It is the sum of the numbers when that is in range. *)
Lemma sum_exact cells :
  Int64.in_range (exact_sum cells) → Int64.sum cells = exact_sum cells.
Proof. intros Hr. by rewrite sum_wrap, wrap_in_range. Qed.

Lemma exact_sum_app cells1 cells2 :
  exact_sum (cells1 ++ cells2) = (exact_sum cells1 + exact_sum cells2)%Z.
Proof. unfold exact_sum. induction cells1 as [|x l1 IH]; simpl; lia. Qed.

Lemma exact_sum_perm cells1 cells2 :
  cells1 ≡ₚ cells2 → exact_sum cells1 = exact_sum cells2.
Proof.
  unfold exact_sum. induction 1 as [|x l1 l2 _ IH|x y l|l1 l2 l3 _ IH1 _ IH2];
    cbn [foldr]; lia.
Qed.

(** The int64 sum of int64 sums is the int64 sum of all the numbers. *)
Lemma sum_wrap_fmap {A} (f : A → Z) (l : list A) :
  Int64.wrap (exact_sum ((λ x, Int64.wrap (f x)) <$> l)) =
    Int64.wrap (exact_sum (f <$> l)).
Proof.
  induction l as [|x l IH]; [done|]. rewrite !fmap_cons. unfold exact_sum in *.
  cbn [foldr]. rewrite wrap_add_l, <-wrap_add_r, IH, wrap_add_r. done.
Qed.

Lemma exact_sum_nonneg cells :
  Forall (λ x, (0 ≤ x)%Z) cells → (0 ≤ exact_sum cells)%Z.
Proof.
  unfold exact_sum. induction 1 as [|x l Hx Hall IH]; [done|]. cbn [foldr]. lia.
Qed.

Lemma exact_sum_positive cells :
  Forall (λ x, (0 ≤ x)%Z) cells → Exists (λ x, (0 < x)%Z) cells →
  (0 < exact_sum cells)%Z.
Proof.
  intros Hall Hex. induction Hex as [x l Hx|x l Hex IH];
    apply Forall_cons in Hall as [Hx' Hall]; unfold exact_sum in *; cbn [foldr].
  - pose proof (exact_sum_nonneg l Hall). unfold exact_sum in *. lia.
  - specialize (IH Hall). lia.
Qed.

End Int64Facts.

(** ** The pivot table *)

Lemma unique_fmap_inj {A B} `{EqDecision A} `{EqDecision B} (f : A → B)
    `{!Inj (=) (=) f} (l : list A) :
  unique (f <$> l) = f <$> unique l.
Proof.
  induction l as [|x l IH]; [done|]. rewrite fmap_cons. cbn [unique].
  rewrite fmap_cons, IH. f_equal. clear IH.
  induction (unique l) as [|y u IHu]; [done|].
  rewrite fmap_cons, !filter_cons, IHu.
  destruct (decide (y ≠ x)) as [Hne|Heq].
  - rewrite decide_True by (intros ?%(inj f); done). by rewrite fmap_cons.
  - rewrite decide_False; [done|]. intros Hf. apply Heq. intros ->. done.
Qed.

Lemma sorted_fmap {A B} (f : A → B) (before : A → A → Prop)
    (before' : B → B → Prop) `{!∀ x y, Decision (before x y)}
    `{!∀ x y, Decision (before' x y)} (l : list A) :
  (∀ x y, before' (f x) (f y) ↔ before x y) →
  sorted before' (f <$> l) = f <$> sorted before l.
Proof.
  intros Hf. induction l as [|x l IH]; [done|]. rewrite fmap_cons. cbn [sorted foldr].
  fold (sorted before' (f <$> l)). fold (sorted before l). rewrite IH. clear IH.
  induction (sorted before l) as [|y s IHs]; [done|].
  rewrite fmap_cons. cbn [insert_stable]. destruct (decide (before y x)) as [Hb|Hb].
  - rewrite decide_True by (by apply Hf). by rewrite fmap_cons, IHs.
  - rewrite decide_False by (by rewrite Hf). done.
Qed.

Section PivotFacts.
Context {K : Type} `{!Dtype K}.
Implicit Types (df : DataFrame K) (sku month : string)
  (agged : gmap (string * string) Z).

Lemma groupby_sum_from agged df sku month :
  foldl (λ agged (r : Row K),
           match order_month r with
           | Some month =>
               let k := (selling_sku_id r, month) in
               <[k := Int64.add (default 0%Z (agged !! k)) (subtotal r)]> agged
           | None => agged
           end)
        agged df !! (sku, month) =
    if decide (sales_in df sku month = [])
    then agged !! (sku, month)
    else Some (Int64.wrap (default 0 (agged !! (sku, month)) +
                           exact_sum (subtotal <$> sales_in df sku month)))%Z.
Proof.
  unfold sales_in. revert agged.
  induction df as [|r df IH]; intros agged; [done|].
  cbn [foldl]. rewrite IH, filter_cons. clear IH.
  destruct (decide (selling_sku_id r = sku ∧ order_month r = Some month))
    as [[<- Hm]|Hne].
  - rewrite Hm, lookup_insert_eq. cbn [default].
    rewrite (decide_False (P := _ :: _ = [])) by done.
    rewrite fmap_cons. unfold exact_sum, Int64.add. cbn [foldr].
    case_decide as Hnil.
    + rewrite Hnil. simpl. do 2 f_equal. lia.
    + unfold id. rewrite wrap_add_l. do 2 f_equal. lia.
  - destruct (order_month r) as [month'|] eqn:Hm; [|done].
    rewrite lookup_insert_ne; [done|].
    intros [= ??]. apply Hne. split; congruence.
Qed.

(** A cell of [pivot_monthly] holds the int64 total of its sku and
    month. *)
Lemma groupby_sum_total df sku month :
  default 0%Z (groupby_sum df !! (sku, month)) = period_total df sku month.
Proof.
  unfold groupby_sum, period_total. rewrite groupby_sum_from, lookup_empty.
  case_decide as Hnil; simpl.
  - by rewrite Hnil.
  - by rewrite sum_wrap.
Qed.

Lemma getitem_fmap {V} (g : string → V) (columns : list string) label :
  getitem ((λ month, (month, g month)) <$> columns) label =
    if decide (label ∈ columns) then Some (g label) else None.
Proof.
  induction columns as [|c columns IH]; [done|].
  rewrite fmap_cons. cbn [getitem fst snd].
  destruct (decide (c = label)) as [->|Hne].
  - by rewrite decide_True by left.
  - rewrite IH. destruct (decide (label ∈ columns)).
    + by rewrite decide_True by (by right).
    + by rewrite decide_False by (rewrite elem_of_cons; naive_solver).
Qed.

Lemma pivot_monthly_rows df :
  pivot_monthly df =
    (λ sku, (sku, (λ month, (month, period_total df sku month))
                    <$> sorted Str.lt (unique (months df))))
      <$> group_keys selling_sku_id (dated df).
Proof.
  unfold pivot_monthly, fillna, pivot_table.
  rewrite <-list_fmap_compose. apply list_fmap_ext. intros _ sku _. simpl.
  f_equal. rewrite <-list_fmap_compose. apply list_fmap_ext. intros _ month _.
  simpl. by rewrite groupby_sum_total.
Qed.

(** The loop adds to its counter what the specification counts. *)
Lemma streak_loop_spec (total : string → Z) columns (ps : list string)
    current_streak :
  ps ⊆ columns →
  streak_loop ((λ month, (month, total month)) <$> columns) (Some <$> ps)
              current_streak =
    Some (current_streak + streak_spec total ps).
Proof.
  revert current_streak.
  induction ps as [|p ps IH]; intros current_streak Hsub; simpl.
  - f_equal. lia.
  - rewrite getitem_fmap, decide_True by (apply Hsub; left). simpl.
    case_decide.
    + rewrite IH by (intros ??; apply Hsub; by right). f_equal. lia.
    + f_equal. lia.
Qed.

Lemma elem_of_months df p :
  p ∈ months df ↔ ∃ r, r ∈ df ∧ order_month r = Some p.
Proof. unfold months. rewrite list_elem_of_omap. naive_solver. Qed.

Lemma order_month_dated df :
  Forall has_month df → order_month <$> df = Some <$> months df.
Proof.
  unfold months. induction 1 as [|r df [p Hp] Hall IH]; [done|].
  rewrite fmap_cons. cbn [omap list_omap]. rewrite Hp, fmap_cons. by f_equal.
Qed.

Lemma dated_all df : Forall has_month df → dated df = df.
Proof. apply filter_all. Qed.

Lemma dated_none df :
  Forall (λ r, order_month r = None) df → dated df = [] ∧ months df = [].
Proof.
  unfold dated, months. induction 1 as [|r df Hr Hall [IH1 IH2]]; [done|].
  rewrite filter_cons_False by (unfold has_month; rewrite Hr; by intros [? ?]).
  cbn [omap list_omap]. by rewrite Hr.
Qed.

(** [periods] lists every period of the records once, in descending
    order. *)
Lemma elem_of_periods df p : p ∈ periods df ↔ Some p ∈ order_month <$> df.
Proof.
  unfold periods. rewrite elem_of_sorted, elem_of_unique, elem_of_months.
  rewrite list_elem_of_fmap. naive_solver.
Qed.

Lemma periods_descending df : StronglySorted Str.gt (periods df).
Proof. apply sorted_str_gt, NoDup_unique. Qed.

Lemma periods_columns df : periods df ⊆ sorted Str.lt (unique (months df)).
Proof. intros p. unfold periods. by rewrite !elem_of_sorted. Qed.

(** Line 190 when every row has a month, when no row has one, and when
    some have one and some have not. *)
Lemma latest_months_dated df :
  Forall has_month df → latest_months df = Some (Some <$> periods df).
Proof.
  intros Hall. unfold latest_months, periods.
  rewrite (order_month_dated df Hall), unique_fmap_inj.
  rewrite decide_False.
  - f_equal. by apply sorted_fmap.
  - intros [(p & [=] & _)%list_elem_of_fmap _].
  - apply _.
Qed.

Lemma unique_all_None (l : list (option string)) :
  l ≠ [] → Forall (λ x, x = None) l → unique l = [None].
Proof.
  intros Hne Hall. destruct Hall as [|x l Hx Hall]; [done|].
  simpl in Hx. subst x. cbn [unique].
  f_equal. apply filter_none, Forall_forall. intros y Hy Hn.
  rewrite elem_of_unique in Hy. rewrite Forall_forall in Hall.
  apply Hn. by apply (Hall y).
Qed.

Lemma latest_months_undated df :
  df ≠ [] → Forall (λ r, order_month r = None) df →
  latest_months df = Some [None].
Proof.
  intros Hne Hall. unfold latest_months. rewrite unique_all_None.
  - rewrite decide_False by (by intros [_ ?]). done.
  - by destruct df.
  - by apply Forall_fmap.
Qed.

Lemma latest_months_mixed df r1 r2 :
  r1 ∈ df → order_month r1 = None → r2 ∈ df → has_month r2 →
  latest_months df = None.
Proof.
  intros H1 Hn H2 [p Hp]. unfold latest_months. rewrite decide_True; [done|].
  split.
  - apply elem_of_unique, list_elem_of_fmap. eauto.
  - intros Heq.
    assert (Some p ∈ unique (order_month <$> df)) as Hin
      by (apply elem_of_unique, list_elem_of_fmap; eauto).
    rewrite Heq in Hin. by apply list_elem_of_singleton in Hin.
Qed.

Lemma streaks_fold (h : string → nat) (rowof : string → Series Z) months index
    (m0 : gmap string nat) :
  (∀ sku, sku ∈ index → streak_loop (rowof sku) months 0 = Some (h sku)) →
  ∃ m, foldl (λ acc (r : string * Series Z),
                streaks ← acc;
                current_streak ← streak_loop r.2 months 0;
                Some (<[r.1 := current_streak]> streaks))
             (Some m0) ((λ sku, (sku, rowof sku)) <$> index) = Some m ∧
       ∀ sku, m !! sku = if decide (sku ∈ index) then Some (h sku) else m0 !! sku.
Proof.
  revert m0. induction index as [|x index IH]; intros m0 Hh.
  - exists m0. split; [done|]. intros sku. by rewrite decide_False by apply not_elem_of_nil.
  - rewrite fmap_cons. cbn [foldl]. simpl. rewrite (Hh x) by left. simpl.
    destruct (IH (<[x := h x]> m0)) as (m & -> & Hm).
    { intros sku Hsku. apply Hh. by right. }
    exists m. split; [done|]. intros sku. rewrite Hm.
    destruct (decide (sku ∈ index)).
    + by rewrite decide_True by (by right).
    + destruct (decide (sku = x)) as [->|Hne].
      * rewrite lookup_insert_eq. by rewrite decide_True by left.
      * rewrite lookup_insert_ne by done.
        by rewrite decide_False by (rewrite elem_of_cons; naive_solver).
Qed.

Lemma elem_of_skus df sku :
  sku ∈ group_keys selling_sku_id df ↔ sku ∈ selling_sku_id <$> df.
Proof. rewrite elem_of_group_keys, list_elem_of_fmap. naive_solver. Qed.

(** The dict of lines 192-200 when every row has a month, entry by
    entry; nothing raises. *)
Lemma streaks_lookup df :
  Forall has_month df →
  ∃ m, streaks df = Some m ∧
       ∀ sku, m !! sku =
                if decide (sku ∈ selling_sku_id <$> df)
                then Some (streak_spec (period_total df sku) (periods df))
                else None.
Proof.
  intros Hall. unfold streaks.
  rewrite pivot_monthly_rows, (latest_months_dated df Hall), (dated_all df Hall).
  cbn [mbind option_bind].
  destruct (streaks_fold
    (λ sku, streak_spec (period_total df sku) (periods df))
    (λ sku, (λ month, (month, period_total df sku month))
              <$> sorted Str.lt (unique (months df)))
    (Some <$> periods df) (group_keys selling_sku_id df) ∅) as (m & Hm & Hl).
  - intros sku _. by rewrite streak_loop_spec by apply periods_columns.
  - exists m. split; [exact Hm|]. intros sku. rewrite Hl, lookup_empty.
    destruct (decide (sku ∈ group_keys selling_sku_id df)) as [Hin|Hin];
      rewrite elem_of_skus in Hin.
    + by rewrite decide_True.
    + by rewrite decide_False.
Qed.

(** Without any month the pivot table is empty and so is the dict. *)
Lemma streaks_undated df :
  df ≠ [] → Forall (λ r, order_month r = None) df → streaks df = Some ∅.
Proof.
  intros Hne Hall. unfold streaks.
  rewrite pivot_monthly_rows, (latest_months_undated df Hne Hall).
  by rewrite (proj1 (dated_none df Hall)).
Qed.

(** The three cases of lines 189-200. *)
Lemma streaks_cases df :
  Forall has_month df ∨
  (df ≠ [] ∧ Forall (λ r, order_month r = None) df ∧ streaks df = Some ∅) ∨
  ((∃ r, r ∈ df ∧ order_month r = None) ∧ (∃ r, r ∈ df ∧ has_month r) ∧
   streaks df = None).
Proof.
  destruct (decide (Forall has_month df)) as [|Hnall]; [by left|right].
  apply not_Forall_Exists in Hnall; [|apply _].
  apply Exists_exists in Hnall as (r1 & Hr1 & Hn1).
  assert (order_month r1 = None) as Hr1n.
  { destruct (order_month r1) as [p|] eqn:Hp; [|done].
    destruct Hn1. unfold has_month. by rewrite Hp. }
  destruct (decide (Forall (λ r, order_month r = None) df)) as [Hnone|Hsome].
  - left. assert (df ≠ []) as Hne by (intros ->; by apply elem_of_nil in Hr1).
    split_and!; [done..|]. by apply streaks_undated.
  - right. apply not_Forall_Exists in Hsome; [|apply _].
    apply Exists_exists in Hsome as (r2 & Hr2 & Hn2).
    assert (has_month r2) as Hm2.
    { unfold has_month. destruct (order_month r2) as [p|] eqn:Hp; [by eexists|].
      by destruct Hn2. }
    split_and!; [by eauto..|].
    unfold streaks. by rewrite (latest_months_mixed df r1 r2).
Qed.

(** An entry of the dict: every row has a month then, and the entry is
    the counter of the specification. *)
Lemma streaks_entry df m sku n :
  streaks df = Some m → m !! sku = Some n →
  Forall has_month df ∧ sku ∈ selling_sku_id <$> df ∧
  n = streak_spec (period_total df sku) (periods df).
Proof.
  intros Hm Hn.
  destruct (streaks_cases df) as [Hall|[(_ & _ & Hs)|(_ & _ & Hs)]].
  - destruct (streaks_lookup df Hall) as (m' & Hm' & Hl).
    rewrite Hm in Hm'. injection Hm' as <-. rewrite Hl in Hn.
    case_decide; [|done]. by injection Hn as <-.
  - rewrite Hm in Hs. injection Hs as ->. by rewrite lookup_empty in Hn.
  - by rewrite Hm in Hs.
Qed.

End PivotFacts.

(** ** The streak of the specification *)

Section StreakSpec.
Context (total : string → Z).
Implicit Types (periods : list string).

Lemma streak_spec_le periods : streak_spec total periods ≤ length periods.
Proof. induction periods; simpl; [done|]. case_decide; lia. Qed.

Lemma streak_spec_positive periods i p :
  i < streak_spec total periods → periods !! i = Some p → (0 < total p)%Z.
Proof.
  revert i. induction periods as [|q periods IH]; intros i; simpl; [lia|].
  case_decide; [|lia]. destruct i as [|i]; simpl.
  - by intros _ [= <-].
  - intros Hi. apply IH. lia.
Qed.

Lemma streak_spec_stop periods p :
  periods !! streak_spec total periods = Some p → (total p ≤ 0)%Z.
Proof.
  induction periods as [|q periods IH]; simpl; [done|].
  case_decide; simpl; [done|]. intros [= <-]. lia.
Qed.

Lemma streak_spec_all periods :
  Forall (λ p, (0 < total p)%Z) periods →
  streak_spec total periods = length periods.
Proof.
  induction 1 as [|p periods Hp Hall IH]; simpl; [done|].
  by rewrite decide_True, IH.
Qed.

End StreakSpec.

(** ** C2: the streak computation *)

(** C2.  On records that all have a period, the computation returns a
    dict (nothing raises).  It has an entry exactly for the skus that
    appear in the records.  The entry of a sku is the counter of the
    specification, run over the aggregated amounts of the sku per period
    and over [latest_months], which is [periods], every period of the
    records once, from the most recent one: the first [n] periods have a
    strictly positive aggregated amount and the next one, if there is
    one, has not.  The aggregated amount of a sku in a period is the
    int64 sum of the amounts of its records in the period; it is their
    sum as numbers as long as that is in the range of int64. *)
Theorem streaks_refine_spec {K : Type} `{!Dtype K} (df : DataFrame K) :
  Forall has_month df →
  StronglySorted Str.gt (periods df) ∧
  (∀ p, p ∈ periods df ↔ Some p ∈ order_month <$> df) ∧
  latest_months df = Some (Some <$> periods df) ∧
  (∀ sku p,
     let amounts := subtotal <$> sales_in df sku p in
     period_total df sku p = Int64.wrap (exact_sum amounts) ∧
     (Int64.in_range (exact_sum amounts) →
      period_total df sku p = exact_sum amounts)) ∧
  ∃ m, streaks df = Some m ∧
    (∀ sku, is_Some (m !! sku) ↔ sku ∈ selling_sku_id <$> df) ∧
    (∀ sku, sku ∈ selling_sku_id <$> df →
       m !! sku = Some (streak_spec (period_total df sku) (periods df))) ∧
    (∀ sku n, m !! sku = Some n →
       n ≤ length (periods df) ∧
       (∀ i p, i < n → periods df !! i = Some p →
               (0 < period_total df sku p)%Z) ∧
       (∀ p, periods df !! n = Some p → (period_total df sku p ≤ 0)%Z)).
Proof.
  intros Hall. split; [apply periods_descending|].
  split; [apply elem_of_periods|]. split; [by apply latest_months_dated|].
  split.
  { intros sku p. simpl. unfold period_total.
    split; [apply sum_wrap|apply sum_exact]. }
  destruct (streaks_lookup df Hall) as (m & Hm & Hl). exists m.
  split; [done|]. split_and!.
  - intros sku. rewrite Hl. case_decide; [by split; eauto|].
    split; [by intros [? [=]]|done].
  - intros sku Hsku. by rewrite Hl, decide_True.
  - intros sku n. rewrite Hl. case_decide; [|done]. intros [= <-]. split_and!.
    + apply streak_spec_le.
    + apply streak_spec_positive.
    + apply streak_spec_stop.
Qed.

Lemma streaks_refine_spec_witness :
  ∃ m, streaks ex1 = Some m ∧ m !! "A" = Some 2 ∧ m !! "B" = Some 0.
Proof.
  destruct (streaks_refine_spec ex1) as (_ & _ & _ & _ & m & Hm & _ & Hs & _).
  { by apply (bool_decide_unpack _). }
  exists m. split; [exact Hm|]. split.
  - rewrite (Hs "A"); [reflexivity|]. vm_compute. left.
  - rewrite (Hs "B"); [reflexivity|]. vm_compute. right. left.
Defined.

(** ** C5: the most recent period *)

Lemma most_recent_period {K : Type} `{!Dtype K} (df : DataFrame K)
    (p : string) (rest : list (option string)) :
  Forall has_month df → latest_months df = Some (Some p :: rest) →
  ∃ rest', periods df = p :: rest'.
Proof.
  intros Hall. rewrite (latest_months_dated df Hall). intros [= Heq].
  destruct (periods df) as [|q rest']; [done|].
  rewrite fmap_cons in Heq. injection Heq as -> _. by exists rest'.
Qed.

(** C5, as amended.  With [p] the most recent period: if the aggregated
    amount of the sku in [p] is strictly positive, as it is when no
    amount is negative, the sku has a sale in [p] with a positive amount
    and the amounts of its sales in [p] add up within the range of int64,
    then the streak is at least 1; if the sku has no sale in [p], the
    streak is 0. *)
Theorem streak_most_recent {K : Type} `{!Dtype K} (df : DataFrame K)
    (m : gmap string nat) (sku p : string) (rest : list (option string))
    (n : nat) :
  streaks df = Some m → latest_months df = Some (Some p :: rest) →
  m !! sku = Some n →
  ((0 < period_total df sku p)%Z → 1 ≤ n) ∧
  (Forall (λ r, (0 ≤ subtotal r)%Z) df →
   Exists (λ r, (0 < subtotal r)%Z) (sales_in df sku p) →
   Int64.in_range (exact_sum (subtotal <$> sales_in df sku p)) → 1 ≤ n) ∧
  (sales_in df sku p = [] → n = 0).
Proof.
  intros Hm Hp Hn. destruct (streaks_entry df m sku n Hm Hn) as (Hall & _ & ->).
  destruct (most_recent_period df p rest Hall Hp) as [rest' ->]. simpl.
  assert ((0 < period_total df sku p)%Z →
          1 ≤ (if decide (0 < period_total df sku p)%Z
               then S (streak_spec (period_total df sku) rest') else 0)) as Hpos.
  { intros Hpos. rewrite decide_True by done. lia. }
  split_and!; [done| |].
  - intros Hnonneg Hex Hrange. apply Hpos. unfold period_total.
    rewrite sum_exact by done. apply exact_sum_positive.
    + apply Forall_fmap, Forall_forall. intros r [_ Hr]%list_elem_of_filter.
      rewrite Forall_forall in Hnonneg. by apply Hnonneg.
    + by apply Exists_fmap.
  - intros Hnil. unfold period_total. rewrite Hnil. reflexivity.
Qed.

Lemma streak_most_recent_witness :
  1 ≤ 2 ∧ 1 ≤ 2 ∧ 0 = 0.
Proof.
  destruct (streak_most_recent ex1 {[ "A" := 2; "B" := 0 ]} "A" "2025-02"
              [Some "2025-01"] 2) as (H1 & H2 & _);
    [by vm_compute| reflexivity | reflexivity |].
  destruct (streak_most_recent ex1 {[ "A" := 2; "B" := 0 ]} "B" "2025-02"
              [Some "2025-01"] 0) as (_ & _ & H3);
    [by vm_compute| reflexivity | reflexivity |].
  split_and!.
  - apply H1. reflexivity.
  - apply H2.
    + repeat constructor; by vm_compute.
    + vm_compute. left. reflexivity.
    + by vm_compute.
  - apply H3. reflexivity.
Defined.

Example free_item_streaks : streaks free_item = Some {[ "A" := 0 ]}.
Proof. by vm_compute. Qed.

(** C5 as stated fails: a sku whose only sale in the most recent period
    has amount 0 has a sale there and streak 0; and so has a sku whose
    sales in that period, all with a positive amount, add up to 2^63. *)
Lemma sale_without_streak :
  ¬ (∀ m sku p n,
       streaks free_item = Some m → head (periods free_item) = Some p →
       m !! sku = Some n → sales_in free_item sku p ≠ [] → 1 ≤ n) ∧
  ¬ (∀ m sku p n,
       streaks overflowing_sales = Some m →
       head (periods overflowing_sales) = Some p →
       m !! sku = Some n → sales_in overflowing_sales sku p ≠ [] → 1 ≤ n).
Proof.
  split; intros H; specialize (H {[ "A" := 0 ]} "A" "2025-01" 0);
    (assert (1 ≤ 0) as Hle; [|lia]);
    (apply H; [by vm_compute|reflexivity|reflexivity|by vm_compute]).
Qed.

(** ** C6: the bound *)

(** C6.  A streak is at most the number of periods, the length of
    [latest_months], and it is that number for a sku whose aggregated
    amount is strictly positive in every period; so it is for a sku whose
    amounts add up, in every period, to a positive number in the range of
    int64. *)
Theorem streak_bounded {K : Type} `{!Dtype K} (df : DataFrame K)
    (m : gmap string nat) (sku : string) (n : nat) :
  streaks df = Some m → m !! sku = Some n →
  (length <$> latest_months df) = Some (length (periods df)) ∧
  n ≤ length (periods df) ∧
  (Forall (λ p, (0 < period_total df sku p)%Z) (periods df) →
   n = length (periods df)) ∧
  (Forall (λ p, let total := exact_sum (subtotal <$> sales_in df sku p) in
                (0 < total)%Z ∧ Int64.in_range total) (periods df) →
   n = length (periods df)).
Proof.
  intros Hm Hn. destruct (streaks_entry df m sku n Hm Hn) as (Hall & _ & ->).
  split_and!.
  - rewrite (latest_months_dated df Hall). simpl. by rewrite length_fmap.
  - apply streak_spec_le.
  - apply streak_spec_all.
  - intros Hpos. apply streak_spec_all. eapply Forall_impl; [exact Hpos|].
    intros p [Hp Hr]. unfold period_total. by rewrite sum_exact.
Qed.

Lemma streak_bounded_witness :
  2 ≤ length (periods ex1) ∧ 2 = length (periods ex1).
Proof.
  destruct (streak_bounded ex1 {[ "A" := 2; "B" := 0 ]} "A" 2)
    as (_ & H1 & H2 & _); [by vm_compute|reflexivity|].
  split; [exact H1|]. apply H2. repeat constructor; by vm_compute.
Defined.

(** ** C8: empty input *)

(** C8.  Without records the streaks are the empty dict and the pairs
    the empty sequence; nothing raises. *)
Theorem empty_input {K : Type} `{!Dtype K} :
  streaks ([] : DataFrame K) = Some ∅ ∧
  ∀ topK, countPairs topK ([] : DataFrame K) = [].
Proof. split; [reflexivity|]. intros topK. reflexivity. Qed.

(** ** C7: determinism *)

Section ScriptFacts.
Context {K : Type} `{!Dtype K}.
Implicit Types (df : DataFrame K) (vars : Vars).





End ScriptFacts.


(** A run that finds the variables full of the results of another input
    ends as a run that finds them empty. *)
Example run_after_run :
  var_streaks <$> (vars ← run_streaks ex2 (mkVars ∅ 0 [] []);
                   run_streaks ex1 (run_pairs ex2 vars).1) =
    Some {[ "A" := 2; "B" := 0 ]} ∧
  (run_pairs ex1 (run_pairs ex2 (mkVars ∅ 0 [] [])).1).2 =
    Some [(("A", "B"), 1)].
Proof. split; by vm_compute. Qed.

(** ** Months as strings *)

Example to_period_M_2025_01 : to_period_M (mkTimestamp 2025 1 31) = "2025-01".
Proof. reflexivity. Qed.

Example category_name_tire : category_name "001-IRC-MAXING" = "Tire".
Proof. reflexivity. Qed.

Example category_name_other : category_name "IRC-SCT-FORZA" = "Unknown".
Proof. reflexivity. Qed.

Lemma digit_compare a b :
  a < 10 → b < 10 → Ascii.compare (digit a) (digit b) = Nat.compare a b.
Proof.
  intros Ha Hb. unfold Ascii.compare, digit, ascii_of_nat.
  rewrite !Nat.mod_small by done.
  rewrite !N_ascii_embedding by lia.
  rewrite <-Nat2N.inj_compare.
  destruct (Nat.compare_spec a b);
    [apply Nat.compare_eq_iff|apply Nat.compare_lt_iff|apply Nat.compare_gt_iff];
    lia.
Qed.

Lemma digit_mod a : digit a = digit (a mod 10).
Proof. unfold digit. by rewrite Nat.Div0.mod_mod. Qed.

(** Two digits in front of two strings: the two-digit numbers decide,
    and the rests when they are equal. *)
Lemma two_digits_compare q1 r1 q2 r2 s1 s2 :
  q1 < 10 → r1 < 10 → q2 < 10 → r2 < 10 →
  String.compare (String (digit q1) (String (digit r1) s1))
                 (String (digit q2) (String (digit r2) s2)) =
    match Nat.compare (10 * q1 + r1) (10 * q2 + r2) with
    | Eq => String.compare s1 s2
    | c => c
    end.
Proof.
  intros Hq1 Hr1 Hq2 Hr2. cbn [String.compare]. rewrite !digit_compare by done.
  destruct (Nat.compare_spec q1 q2); destruct (Nat.compare_spec r1 r2);
    destruct (Nat.compare_spec (10 * q1 + r1) (10 * q2 + r2));
    first [reflexivity | lia].
Qed.

(** The digits of a number below 10000. *)
Lemma four_digits y :
  y < 10 * 1000 →
  ∃ a b c d, a < 10 ∧ b < 10 ∧ c < 10 ∧ d < 10 ∧
    y = 1000 * a + 100 * b + 10 * c + d ∧
    zfill4 y = String (digit a) (String (digit b)
                 (String (digit c) (String (digit d) EmptyString))).
Proof.
  intros Hy. exists (y / 1000), ((y / 100) mod 10), ((y / 10) mod 10), (y mod 10).
  pose proof (Nat.div_mod_eq y 10) as E1.
  pose proof (Nat.div_mod_eq (y / 10) 10) as E2.
  pose proof (Nat.div_mod_eq (y / 100) 10) as E3.
  rewrite Nat.Div0.div_div in E2. rewrite Nat.Div0.div_div in E3.
  change (10 * 10) with 100 in E2. change (100 * 10) with 1000 in E3.
  pose proof (Nat.mod_upper_bound y 10). 
  pose proof (Nat.mod_upper_bound (y / 10) 10).
  pose proof (Nat.mod_upper_bound (y / 100) 10).
  split_and!; [lia..|].
  unfold zfill4, zfill2.
  by rewrite (digit_mod (y / 100)), (digit_mod (y / 10)), (digit_mod y).
Qed.

Lemma two_digits m :
  m < 100 →
  ∃ q r, q < 10 ∧ r < 10 ∧ m = 10 * q + r ∧
    zfill2 m = String (digit q) (String (digit r) EmptyString).
Proof.
  intros Hm. exists (m / 10), (m mod 10).
  pose proof (Nat.div_mod_eq m 10). pose proof (Nat.mod_upper_bound m 10).
  split_and!; [lia..|]. unfold zfill2. by rewrite (digit_mod m).
Qed.

Lemma compare_same_head c s1 s2 :
  String.compare (String c s1) (String c s2) = String.compare s1 s2.
Proof. cbn [String.compare]. by rewrite StrFacts.ascii_compare_refl. Qed.

Lemma to_period_M_compare t1 t2 :
  year t1 < 10 * 1000 → year t2 < 10 * 1000 → month t1 < 100 → month t2 < 100 →
  String.compare (to_period_M t1) (to_period_M t2) =
    match Nat.compare (year t1) (year t2) with
    | Eq => Nat.compare (month t1) (month t2)
    | c => c
    end.
Proof.
  destruct t1 as [y1 m1 d1], t2 as [y2 m2 d2]. cbn [year month].
  intros Hy1 Hy2 Hm1 Hm2. unfold to_period_M. cbn [year month].
  destruct (four_digits y1 Hy1) as (a1 & b1 & c1 & e1 & ? & ? & ? & ? & -> & ->).
  destruct (four_digits y2 Hy2) as (a2 & b2 & c2 & e2 & ? & ? & ? & ? & -> & ->).
  destruct (two_digits m1 Hm1) as (q1 & r1 & ? & ? & -> & ->).
  destruct (two_digits m2 Hm2) as (q2 & r2 & ? & ? & -> & ->).
  cbv [String.append]. rewrite !two_digits_compare by done.
  rewrite compare_same_head, two_digits_compare by done. cbn [String.compare].
  destruct (Nat.compare_spec (10 * a1 + b1) (10 * a2 + b2));
    destruct (Nat.compare_spec (10 * c1 + e1) (10 * c2 + e2));
    destruct (Nat.compare_spec (1000 * a1 + 100 * b1 + 10 * c1 + e1)
                               (1000 * a2 + 100 * b2 + 10 * c2 + e2));
    try lia; try reflexivity.
  by destruct (Nat.compare (10 * q1 + r1) (10 * q2 + r2)).
Qed.

(** X1.  For timestamps of a four-digit year, the month strings of line
    49 compare as the months do: the string order that [sorted] (lines
    68 and 190) and the range filter (lines 77-78) use is the
    chronological order, and two timestamps get the same string exactly
    when they are in the same month of the same year. *)
Theorem month_order_chronological (t1 t2 : Timestamp) :
  year t1 < 10 * 1000 → year t2 < 10 * 1000 → month t1 < 100 → month t2 < 100 →
  (Str.lt (to_period_M t1) (to_period_M t2) ↔ month_before t1 t2) ∧
  (to_period_M t1 = to_period_M t2 ↔ year t1 = year t2 ∧ month t1 = month t2).
Proof.
  intros Hy1 Hy2 Hm1 Hm2.
  rewrite StrFacts.lt_compare, <-StrFacts.compare_Eq, to_period_M_compare by done.
  unfold month_before.
  destruct (Nat.compare_spec (year t1) (year t2));
    destruct (Nat.compare_spec (month t1) (month t2));
    split; split; first [discriminate | lia | reflexivity | intros; lia].
Qed.

Lemma month_order_chronological_witness :
  Str.lt (to_period_M (mkTimestamp 2024 12 31)) (to_period_M (mkTimestamp 2025 1 1)).
Proof.
  destruct (month_order_chronological
              (mkTimestamp 2024 12 31) (mkTimestamp 2025 1 1)) as [[_ Hlt] _];
    [cbn [year month]; lia..|].
  apply Hlt. left. cbn [year]. lia.
Defined.

(** ** Categories *)

Lemma CATEGORY_MAP_lookup id name :
  CATEGORY_MAP !! id = Some name ↔ (id, name) ∈ category_table.
Proof.
  unfold CATEGORY_MAP. symmetry. apply elem_of_list_to_map.
  by apply (bool_decide_unpack _).
Qed.

Lemma substring_prefix n (s : string) :
  ∃ rest, s = (substring 0 n s ++ rest)%string.
Proof.
  revert n. induction s as [|c s IH]; intros [|n].
  - by exists EmptyString.
  - by exists EmptyString.
  - by exists (String c s).
  - destruct (IH n) as [rest Hrest]. exists rest.
    change (String c s = String c (substring 0 n s ++ rest)%string).
    by rewrite <-Hrest.
Qed.

Lemma substring_app (p rest : string) :
  substring 0 (String.length p) (p ++ rest) = p.
Proof.
  induction p as [|c p IH]; [by destruct rest|].
  change (String c (substring 0 (String.length p) (p ++ rest)) = String c p).
  by rewrite IH.
Qed.

Lemma category_table_facts id name :
  (id, name) ∈ category_table →
  String.length id = 3 ∧ name ≠ "Unknown" ∧
  ∀ id', (id', name) ∈ category_table → id' = id.
Proof.
  assert (Forall (λ e, String.length e.1 = 3 ∧ e.2 ≠ "Unknown" ∧
                       Forall (λ e', e'.2 = e.2 → e'.1 = e.1) category_table)
                 category_table) as Hall
    by (by apply (bool_decide_unpack _)).
  rewrite Forall_forall in Hall. intros Hin.
  destruct (Hall _ Hin) as (Hlen & Hne & Hinj). split_and!; [done..|].
  intros id' Hin'. rewrite Forall_forall in Hinj. by apply (Hinj _ Hin').
Qed.

(** X2.  A sku is shown under a category of the dict exactly when it
    starts with the three-character id of that category. *)
Theorem category_by_prefix (id name sku : string) :
  CATEGORY_MAP !! id = Some name →
  category_name sku = name ↔ ∃ rest, sku = (id ++ rest)%string.
Proof.
  intros Hid%CATEGORY_MAP_lookup.
  destruct (category_table_facts _ _ Hid) as (Hlen & Hne & Hinj).
  unfold category_name. split.
  - destruct (CATEGORY_MAP !! category_id sku) as [name'|] eqn:Hsku; simpl;
      [|by intros <-].
    intros ->. apply CATEGORY_MAP_lookup, Hinj in Hsku.
    destruct (substring_prefix 3 sku) as [rest Hrest]. exists rest.
    by rewrite <-Hsku.
  - intros [rest ->]. unfold category_id. rewrite <-Hlen, substring_app.
    apply CATEGORY_MAP_lookup in Hid. by rewrite Hid.
Qed.

Lemma category_by_prefix_witness : category_name "003-OIL-10W40" = "Motor Oil".
Proof.
  apply (category_by_prefix "003" "Motor Oil" "003-OIL-10W40"); [reflexivity|].
  by exists "-OIL-10W40".
Defined.

(** X3.  A sku is shown as "Unknown" exactly when it starts with none of
    the ids of the dict; no category of the dict is called "Unknown". *)
Theorem category_unknown (sku : string) :
  category_name sku = "Unknown" ↔
    ∀ id rest, is_Some (CATEGORY_MAP !! id) → sku ≠ (id ++ rest)%string.
Proof.
  unfold category_name. split.
  - intros Hunk id rest [name Hid] ->.
    pose proof Hid as Hid'%CATEGORY_MAP_lookup.
    destruct (category_table_facts _ _ Hid') as (Hlen & Hne & _).
    unfold category_id in Hunk. rewrite <-Hlen, substring_app, Hid in Hunk.
    done.
  - intros Hno. destruct (CATEGORY_MAP !! category_id sku) as [name|] eqn:Hsku;
      [|done].
    destruct (substring_prefix 3 sku) as [rest Hrest].
    destruct (Hno (category_id sku) rest); [by eauto|done].
Qed.

Lemma category_unknown_witness : category_name "IRC-SCT-FORZA" = "Unknown".
Proof.
  apply category_unknown. intros id rest [name Hid%CATEGORY_MAP_lookup] Heq.
  unfold category_table in Hid.
  repeat (apply elem_of_cons in Hid as [Hid|Hid]);
    [injection Hid as -> _; discriminate Heq..|by apply elem_of_nil in Hid].
Defined.

(** ** The merge and the filter *)

Section MergeFacts.
Context {K : Type} `{!Dtype K}.
Implicit Types (df_items : list (Items.t K)) (df_orders : list (Orders.t K))
  (i : Items.t K) (o : Orders.t K) (m : Merged K).

Lemma elem_of_merge_left m df_items df_orders :
  m ∈ merge_left df_items df_orders ↔
    item m ∈ df_items ∧
    match order m with
    | Some o => o ∈ df_orders ∧ Orders.order_id o = Items.order_id (item m)
    | None => ∀ o, o ∈ df_orders → Orders.order_id o ≠ Items.order_id (item m)
    end.
Proof.
  unfold merge_left. rewrite list_elem_of_bind. split.
  - intros (i & Hm & Hi).
    destruct (filter _ df_orders) as [|o1 os] eqn:Hf.
    + apply list_elem_of_singleton in Hm as ->. simpl. split; [done|].
      intros o Ho Hid.
      assert (o ∈ filter (λ o, Orders.order_id o = Items.order_id i) df_orders)
        as Hin by (by apply list_elem_of_filter).
      rewrite Hf in Hin. by apply elem_of_nil in Hin.
    + apply list_elem_of_fmap in Hm as (o & -> & Ho). simpl. split; [done|].
      rewrite <-Hf in Ho. apply list_elem_of_filter in Ho. tauto.
  - destruct m as [i [o|]]; simpl.
    + intros (Hi & Ho & Hid). exists i. split; [|done].
      assert (o ∈ filter (λ o, Orders.order_id o = Items.order_id i) df_orders)
        as Hin by (by apply list_elem_of_filter).
      destruct (filter _ df_orders) as [|o1 os]; [by apply elem_of_nil in Hin|].
      by apply (list_elem_of_fmap_2 (λ o, mkMerged i (Some o)) (o1 :: os)).
    + intros (Hi & Hno). exists i. split; [|done].
      destruct (filter _ df_orders) as [|o1 os] eqn:Hf; [left|].
      assert (o1 ∈ filter (λ o, Orders.order_id o = Items.order_id i) df_orders)
        as [Hid Hin]%list_elem_of_filter by (rewrite Hf; left).
      by destruct (Hno o1).
Qed.

Lemma filter_key_unique {A T} `{EqDecision T} (f : A → T) (k : T) (l : list A) :
  NoDup (f <$> l) → length (filter (λ x, f x = k) l) ≤ 1.
Proof.
  induction l as [|x l IH]; [simpl; lia|].
  rewrite fmap_cons, NoDup_cons. intros [Hx Hnd].
  rewrite filter_cons. case_decide as Hk; [|by apply IH].
  rewrite filter_none; [simpl; lia|].
  apply Forall_forall. intros y Hy Hyk. apply Hx.
  apply list_elem_of_fmap. exists y. split; [congruence|done].
Qed.

(** X4.  The merge of line 52 loses no item line and invents none: the
    merged rows are, in order, rows of the lines of [df_items], each line
    at least once; a row carries an order with the id of its line, or NaN
    when no order has that id.  When no two rows of [df_orders] share an
    [order_id], every line comes exactly once. *)
Theorem merge_left_lines (df_items : list (Items.t K))
    (df_orders : list (Orders.t K)) :
  (∀ m, m ∈ merge_left df_items df_orders →
     item m ∈ df_items ∧
     match order m with
     | Some o => o ∈ df_orders ∧ Orders.order_id o = Items.order_id (item m)
     | None => ∀ o, o ∈ df_orders → Orders.order_id o ≠ Items.order_id (item m)
     end) ∧
  (∀ i, i ∈ df_items → ∃ m, m ∈ merge_left df_items df_orders ∧ item m = i) ∧
  length df_items ≤ length (merge_left df_items df_orders) ∧
  (NoDup (Orders.order_id <$> df_orders) →
   item <$> merge_left df_items df_orders = df_items).
Proof.
  split_and!.
  - intros m. by rewrite elem_of_merge_left.
  - intros i Hi.
    destruct (filter (λ o, Orders.order_id o = Items.order_id i) df_orders)
      as [|o os] eqn:Hf.
    + exists (mkMerged i None). split; [|done].
      unfold merge_left. apply list_elem_of_bind. exists i.
      rewrite Hf. split; [left|done].
    + exists (mkMerged i (Some o)). split; [|done].
      unfold merge_left. apply list_elem_of_bind. exists i.
      rewrite Hf. split; [left|done].
  - unfold merge_left. induction df_items as [|i df_items IH]; [done|].
    rewrite bind_cons, length_app.
    destruct (filter _ df_orders); [|rewrite length_fmap]; cbn [length]; lia.
  - intros Hnd. unfold merge_left.
    induction df_items as [|i df_items IH]; [done|].
    rewrite bind_cons, fmap_app, IH.
    pose proof (filter_key_unique Orders.order_id (Items.order_id i) df_orders Hnd)
      as Hlen.
    destruct (filter _ df_orders) as [|o [|o' os]]; simpl in *; [done..|lia].
Qed.

Lemma head_le (l : list string) (x y : string) :
  StronglySorted Str.le l → head l = Some x → y ∈ l → Str.le x y.
Proof.
  intros Hs Hx Hy. destruct Hs as [|z l Hs Hall]; [done|].
  injection Hx as ->. apply elem_of_cons in Hy as [->|Hy]; [done|].
  rewrite Forall_forall in Hall. by apply Hall.
Qed.

Lemma last_le (l : list string) (x y : string) :
  StronglySorted Str.le l → last l = Some x → y ∈ l → Str.le y x.
Proof.
  intros Hs. revert y. induction Hs as [|z l Hs IH Hall]; [done|].
  intros y Hx Hy. destruct l as [|z' l].
  - injection Hx as ->. by apply list_elem_of_singleton in Hy as ->.
  - change (last (z' :: l) = Some x) in Hx.
    apply elem_of_cons in Hy as [->|Hy]; [|by apply IH].
    trans z'; [|apply IH; [done|left]].
    rewrite Forall_forall in Hall. apply Hall. left.
Qed.

End MergeFacts.

Lemma merge_left_lines_witness :
  item <$> merge_left sample_items sample_orders = sample_items.
Proof.
  apply (merge_left_lines sample_items sample_orders).
  by apply (bool_decide_unpack _).
Defined.

Example sample_rows : rows (merge_left sample_items sample_orders) =
  [ mkRow "o1" "001-A" (Some "2025-01") 5; mkRow "o1" "002-B" (Some "2025-01") 3;
    mkRow "o2" "001-A" (Some "2025-02") 2 ].
Proof. reflexivity. Qed.

(** X5.  The two filters agree: a merged row passes the filter of lines
    82-87 exactly when it carries an order that passes the filter of
    lines 75-80; a line without order never passes. *)
Theorem filters_agree {K : Type} `{!Dtype K} (selected_platforms : list string)
    (start_month end_month : string)
    (df_items : list (Items.t K)) (df_orders : list (Orders.t K))
    (m : Merged K) :
  m ∈ df_merged_filtered selected_platforms start_month end_month
        (merge_left df_items df_orders) ↔
    item m ∈ df_items ∧
    ∃ o, order m = Some o ∧
         Orders.order_id o = Items.order_id (item m) ∧
         o ∈ df_orders_filtered selected_platforms start_month end_month
               df_orders.
Proof.
  unfold df_merged_filtered, df_orders_filtered, mask_merged.
  rewrite list_elem_of_filter, elem_of_merge_left.
  setoid_rewrite list_elem_of_filter.
  destruct (order m) as [o|]; [|naive_solver]. split.
  - intros (Hmask & Hi & Ho & Hid). split; [done|]. by exists o.
  - intros (Hi & o' & [= <-] & Hid & Hmask & Ho). done.
Qed.

(** X6.  The slider's starting range exists unless [df_orders] is empty
    (then line 69 raises), and with it and all platforms selected, as the
    page starts, the filter keeps every order. *)
Theorem default_selection {K : Type} `{!Dtype K}
    (df_orders : list (Orders.t K)) :
  (default_month_range df_orders = None ↔ df_orders = []) ∧
  (∀ start_month end_month,
     default_month_range df_orders = Some (start_month, end_month) →
     df_orders_filtered (available_platforms df_orders) start_month end_month
       df_orders = df_orders).
Proof.
  assert (StronglySorted Str.le (available_months df_orders)) as Hs
    by apply sorted_str_le.
  assert (∀ o, o ∈ df_orders → Orders.order_month o ∈ available_months df_orders)
    as Hin.
  { intros o Ho. unfold available_months.
    rewrite elem_of_sorted, elem_of_unique. by apply list_elem_of_fmap_2. }
  unfold default_month_range. split.
  - split.
    + intros Hnone. destruct df_orders as [|o df_orders]; [done|].
      pose proof (Hin o (list_elem_of_here _ _)) as Ho.
      destruct (available_months (o :: df_orders)) as [|x l] eqn:Hl;
        [by apply elem_of_nil in Ho|].
      cbn [head mbind option_bind] in Hnone.
      destruct (last (x :: l)) as [y|] eqn:Hy; [done|].
      by apply last_None in Hy.
    + by intros ->.
  - intros start_month end_month Hr.
    destruct (head (available_months df_orders)) as [s|] eqn:Hhead; [|done].
    destruct (last (available_months df_orders)) as [e|] eqn:Hlast; [|done].
    injection Hr as <- <-.
    apply filter_all, Forall_forall. intros o Ho. split_and!.
    + unfold available_platforms. apply elem_of_unique.
      by apply list_elem_of_fmap_2.
    + eapply head_le; eauto.
    + eapply last_le; eauto.
Qed.

Lemma default_selection_witness :
  df_orders_filtered (available_platforms sample_orders) "2025-01" "2025-02"
    sample_orders = sample_orders.
Proof. by apply (proj2 (default_selection sample_orders)). Defined.

Lemma filters_agree_witness :
  mkMerged (Items.mk "o2" "001-A" 1 2 2)
           (Some (Orders.mk "o2" "Lazada" (mkTimestamp 2025 2 3) 2))
    ∈ df_merged_filtered ["Lazada"] "2025-01" "2025-02"
        (merge_left sample_items sample_orders).
Proof.
  apply (filters_agree ["Lazada"] "2025-01" "2025-02" sample_items sample_orders).
  cbn [item order]. split.
  - vm_compute. right. right. left.
  - eexists. split; [reflexivity|]. split; [reflexivity|].
    vm_compute. left.
Defined.

(** ** Sums per group *)

Section GroupSums.
Context {A T : Type} `{EqDecision T} (key : A → T) (val : A → Z).
Implicit Types (l : list A) (keys : list T).

Lemma exact_sum_indicator keys k0 (v : Z) :
  NoDup keys → k0 ∈ keys →
  exact_sum ((λ k, if decide (k0 = k) then v else 0%Z) <$> keys) = v.
Proof.
  unfold exact_sum. induction 1 as [|k keys Hk Hnd IH]; [by intros ?%elem_of_nil|].
  rewrite fmap_cons. cbn [foldr]. intros [->|Hin]%elem_of_cons.
  - rewrite decide_True by done.
    assert (foldr Z.add 0%Z ((λ k', if decide (k = k') then v else 0%Z) <$> keys)
            = 0%Z) as ->; [|lia].
    clear IH Hnd. induction keys as [|k' keys IH]; [done|].
    rewrite fmap_cons. cbn [foldr].
    rewrite decide_False by (intros ->; apply Hk; left).
    rewrite IH; [done|]. intros Hin. apply Hk. by right.
  - rewrite decide_False by (by intros <-). rewrite IH by done. lia.
Qed.

Lemma exact_sum_fmap_add (f g : T → Z) keys :
  exact_sum ((λ k, f k + g k)%Z <$> keys) =
    (exact_sum (f <$> keys) + exact_sum (g <$> keys))%Z.
Proof.
  unfold exact_sum. induction keys as [|k keys IH]; [done|].
  rewrite !fmap_cons. cbn [foldr]. rewrite IH. lia.
Qed.

Lemma exact_sum_filter_cons x l k :
  exact_sum (val <$> filter (λ x, key x = k) (x :: l)) =
    ((if decide (key x = k) then val x else 0) +
     exact_sum (val <$> filter (λ x, key x = k) l))%Z.
Proof.
  rewrite filter_cons. case_decide; [|lia]. by rewrite fmap_cons.
Qed.

(** As numbers, the sums of the groups add up to the sum of the
    column. *)
Lemma group_sums_exact keys l :
  NoDup keys → (∀ x, x ∈ l → key x ∈ keys) →
  exact_sum ((λ k, exact_sum (val <$> filter (λ x, key x = k) l)) <$> keys) =
    exact_sum (val <$> l).
Proof.
  intros Hnd. induction l as [|x l IH]; intros Hin.
  - clear Hnd Hin. induction keys as [|k keys IHk]; [done|].
    rewrite fmap_cons. unfold exact_sum in *. cbn [foldr]. by rewrite IHk.
  - rewrite (list_fmap_ext _
      (λ k, (if decide (key x = k) then val x else 0) +
            exact_sum (val <$> filter (λ x, key x = k) l))%Z)
      by (intros; apply exact_sum_filter_cons).
    rewrite exact_sum_fmap_add, IH by (intros; apply Hin; by right).
    rewrite exact_sum_indicator by (done || apply Hin; left).
    by rewrite fmap_cons.
Qed.

(** In int64 arithmetic as well: the wrap-around of the parts and the
    wrap-around of the whole agree. *)
Lemma group_sums_total keys l :
  NoDup keys → (∀ x, x ∈ l → key x ∈ keys) →
  Int64.sum ((λ k, Int64.sum (val <$> filter (λ x, key x = k) l)) <$> keys) =
    Int64.sum (val <$> l).
Proof.
  intros Hnd Hin. rewrite !sum_wrap.
  rewrite (list_fmap_ext _
    (λ k, Int64.wrap (exact_sum (val <$> filter (λ x, key x = k) l))))
    by (intros; apply sum_wrap).
  by rewrite (sum_wrap_fmap (λ k, exact_sum (val <$> filter (λ x, key x = k) l))),
    group_sums_exact.
Qed.

Lemma exact_sum_filter_le (P : A → Prop) `{!∀ x, Decision (P x)} l :
  Forall (λ x, (0 ≤ val x)%Z) l →
  (0 ≤ exact_sum (val <$> filter P l) ≤ exact_sum (val <$> l))%Z.
Proof.
  unfold exact_sum. induction 1 as [|x l Hx Hall IH]; [done|].
  rewrite filter_cons, fmap_cons. cbn [foldr].
  case_decide; [rewrite fmap_cons; cbn [foldr]|]; lia.
Qed.

(** When no amount is negative and the column adds up within the range
    of int64, nothing wraps around: the sum of the column and the sums of
    the groups are sums of numbers, and the latter add up to the
    former. *)
Lemma group_sums_no_overflow keys l :
  NoDup keys → (∀ x, x ∈ l → key x ∈ keys) →
  Forall (λ x, (0 ≤ val x)%Z) l → Int64.in_range (exact_sum (val <$> l)) →
  Int64.sum (val <$> l) = exact_sum (val <$> l) ∧
  exact_sum ((λ k, Int64.sum (val <$> filter (λ x, key x = k) l)) <$> keys) =
    exact_sum (val <$> l).
Proof.
  intros Hnd Hin Hnonneg Hrange. split; [by apply sum_exact|].
  rewrite (list_fmap_ext _ (λ k, exact_sum (val <$> filter (λ x, key x = k) l))).
  - by apply group_sums_exact.
  - intros _ k _. apply sum_exact.
    pose proof (exact_sum_filter_le (λ x, key x = k) l Hnonneg).
    unfold Int64.in_range, Int64.half in *. lia.
Qed.

End GroupSums.

Lemma sum_perm (l1 l2 : list Z) : l1 ≡ₚ l2 → Int64.sum l1 = Int64.sum l2.
Proof. intros Hperm. by rewrite !sum_wrap, (exact_sum_perm l1 l2). Qed.

(** ** Sales per category *)

Section CategoryFacts.
Context {K : Type} `{!Dtype K}.
Implicit Types (df : list (Merged K)).

Lemma category_totals_keys df :
  (category_totals df).*1 = sorted Str.lt (unique (row_category <$> df)).
Proof.
  unfold category_totals. rewrite <-list_fmap_compose.
  rewrite <-(list_fmap_id (sorted _ _)) at 2. by apply list_fmap_ext.
Qed.

Lemma category_totals_sum df :
  Int64.sum (category_totals df).*2 = Int64.sum (Items.subtotal ∘ item <$> df).
Proof.
  unfold category_totals. rewrite <-list_fmap_compose.
  rewrite <-(group_sums_total row_category (Items.subtotal ∘ item)
               (sorted Str.lt (unique (row_category <$> df))) df).
  - done.
  - apply NoDup_sorted, NoDup_unique.
  - intros m Hm. rewrite elem_of_sorted, elem_of_unique.
    by apply list_elem_of_fmap_2.
Qed.

Lemma cat_sales_sum df :
  Int64.sum (cat_sales df).*2 = Int64.sum (Items.subtotal ∘ item <$> df).
Proof.
  rewrite <-category_totals_sum. apply sum_perm.
  unfold cat_sales. by rewrite sorted_perm.
Qed.

Lemma cat_sales_no_overflow df :
  Forall (λ m, (0 ≤ Items.subtotal (item m))%Z) df →
  Int64.in_range (exact_sum (Items.subtotal ∘ item <$> df)) →
  exact_sum (cat_sales df).*2 = exact_sum (Items.subtotal ∘ item <$> df).
Proof.
  intros Hnonneg Hrange.
  rewrite (exact_sum_perm (cat_sales df).*2 (category_totals df).*2)
    by (unfold cat_sales; by rewrite sorted_perm).
  unfold category_totals. rewrite <-list_fmap_compose.
  apply (group_sums_no_overflow row_category (Items.subtotal ∘ item)); [|  |done..].
  - apply NoDup_sorted, NoDup_unique.
  - intros m Hm. rewrite elem_of_sorted, elem_of_unique.
    by apply list_elem_of_fmap_2.
Qed.

End CategoryFacts.

(** X7.  The category chart of line 163 has one bar per category that
    occurs in the filtered rows; a bar is the int64 sum of the subtotals
    of the rows of its category; the bars are in descending order of
    their totals, and their int64 sum is the int64 sum of the subtotals
    of all filtered rows.  When no subtotal is negative and the
    subtotals add up within the range of int64, the bars add up, as
    numbers, to the sum of the subtotals. *)
Theorem cat_sales_totals {K : Type} `{!Dtype K} (df : list (Merged K)) :
  NoDup (cat_sales df).*1 ∧
  (∀ c, c ∈ (cat_sales df).*1 ↔ ∃ m, m ∈ df ∧ row_category m = c) ∧
  (∀ c v, (c, v) ∈ cat_sales df →
     v = Int64.sum (Items.subtotal ∘ item
                      <$> filter (λ m, row_category m = c) df)) ∧
  StronglySorted total_ge (cat_sales df) ∧
  Int64.sum (cat_sales df).*2 = Int64.sum (Items.subtotal ∘ item <$> df) ∧
  (Forall (λ m, (0 ≤ Items.subtotal (item m))%Z) df →
   Int64.in_range (exact_sum (Items.subtotal ∘ item <$> df)) →
   exact_sum (cat_sales df).*2 = exact_sum (Items.subtotal ∘ item <$> df)).
Proof.
  assert (cat_sales df ≡ₚ category_totals df) as Hperm by apply sorted_perm.
  split_and!.
  - rewrite Hperm, category_totals_keys. apply NoDup_sorted, NoDup_unique.
  - intros c. rewrite Hperm, category_totals_keys.
    rewrite elem_of_sorted, elem_of_unique, list_elem_of_fmap. naive_solver.
  - intros c v. rewrite Hperm. unfold category_totals.
    by intros (c' & [= -> ->] & _)%list_elem_of_fmap.
  - assert (StronglySorted (may_precede total_gt) (cat_sales df)) as Hs.
    { apply sorted_StronglySorted.
      - intros x y. unfold total_gt. lia.
      - intros x y z. unfold may_precede, total_gt. lia. }
    clear Hperm. induction Hs as [|e l Hs IH Hall]; constructor; [done|].
    eapply Forall_impl; [done|]. intros e'. unfold may_precede, total_gt, total_ge.
    lia.
  - apply cat_sales_sum.
  - apply cat_sales_no_overflow.
Qed.

Example sample_cat_sales :
  cat_sales (merge_left sample_items sample_orders) =
    [("Tire", 7%Z); ("Rubber", 3%Z)].
Proof. reflexivity. Qed.

Lemma cat_sales_totals_witness :
  exact_sum (cat_sales (merge_left sample_items sample_orders)).*2 = 10%Z.
Proof.
  rewrite (proj2 (proj2 (proj2 (proj2 (proj2
    (cat_sales_totals (merge_left sample_items sample_orders))))))).
  - reflexivity.
  - repeat constructor; by vm_compute.
  - by vm_compute.
Defined.

(** Two bars of 2^62 add up, in int64, to -2^63, the Total Revenue of
    these orders. *)
Example large_cat_sales :
  (cat_sales (merge_left large_items large_orders)).*2 =
    [4611686018427387904%Z; 4611686018427387904%Z] ∧
  Int64.sum (cat_sales (merge_left large_items large_orders)).*2 =
    (-9223372036854775808)%Z ∧
  total_revenue large_orders = (-9223372036854775808)%Z.
Proof. split_and!; by vm_compute. Qed.

(** ** The product table *)

Section ProductTable.
Context {K : Type} `{!Dtype K}.
Implicit Types (df : list (Merged K)) (m : Merged K) (d : gmap string nat).

Lemma sku_stats_keys df :
  (λ s, (stat_sku s, stat_category s)) <$> sku_stats df =
    sorted key_lt (unique (sku_key <$> df)).
Proof.
  unfold sku_stats. rewrite <-list_fmap_compose.
  rewrite <-(list_fmap_id (sorted _ _)) at 2. apply list_fmap_ext.
  by intros _ [sku c] _.
Qed.

Lemma elem_of_sku_stats_keys df sku c :
  (sku, c) ∈ sorted key_lt (unique (sku_key <$> df)) ↔
    ∃ m, m ∈ df ∧ Items.selling_sku_id (item m) = sku ∧ c = category_name sku.
Proof.
  rewrite elem_of_sorted, elem_of_unique, list_elem_of_fmap. unfold sku_key.
  split.
  - intros (m & [= -> ->] & Hm). eauto.
  - intros (m & Hm & <- & ->). eauto.
Qed.

Lemma elem_of_sku_stats df sku :
  sku ∈ stat_sku <$> sku_stats df ↔
    ∃ m, m ∈ df ∧ Items.selling_sku_id (item m) = sku.
Proof.
  transitivity (∃ c, (sku, c) ∈ sorted key_lt (unique (sku_key <$> df))).
  - rewrite <-sku_stats_keys. rewrite !list_elem_of_fmap. split.
    + intros (s & -> & Hs). exists (stat_category s).
      apply list_elem_of_fmap. eauto.
    + intros (c & (s & [= -> ->] & Hs)%list_elem_of_fmap). eauto.
  - setoid_rewrite elem_of_sku_stats_keys. naive_solver.
Qed.

Lemma NoDup_sku_stats df : NoDup (stat_sku <$> sku_stats df).
Proof.
  assert (stat_sku <$> sku_stats df =
          fst <$> sorted key_lt (unique (sku_key <$> df))) as ->.
  { rewrite <-sku_stats_keys, <-list_fmap_compose. done. }
  apply NoDup_fmap_2_strong; [|apply NoDup_sorted, NoDup_unique].
  intros [sku1 c1] [sku2 c2] H1%elem_of_sku_stats_keys H2%elem_of_sku_stats_keys.
  simpl. intros ->. destruct H1 as (_ & _ & _ & ->), H2 as (_ & _ & _ & ->).
  done.
Qed.

Lemma sku_stats_subtotal df :
  Int64.sum (stat_subtotal <$> sku_stats df) =
    Int64.sum (Items.subtotal ∘ item <$> df).
Proof.
  unfold sku_stats. rewrite <-list_fmap_compose.
  rewrite <-(group_sums_total sku_key (Items.subtotal ∘ item)
               (sorted key_lt (unique (sku_key <$> df))) df).
  - done.
  - apply NoDup_sorted, NoDup_unique.
  - intros m Hm. rewrite elem_of_sorted, elem_of_unique.
    by apply list_elem_of_fmap_2.
Qed.

Lemma final_product_df_all (stats : list SkuStat) d :
  (∀ s, s ∈ stats → is_Some (d !! stat_sku s)) →
  (final_product_df stats d).*1 = stats ∧
  ∀ s n, (s, n) ∈ final_product_df stats d → d !! stat_sku s = Some n.
Proof.
  unfold final_product_df. induction stats as [|s stats IH]; intros Hall.
  - split; [done|]. by intros s n ?%elem_of_nil.
  - destruct (Hall s (list_elem_of_here _ _)) as [n Hn].
    destruct IH as [IH1 IH2]; [intros; apply Hall; by right|].
    cbn [omap list_omap]. rewrite Hn. cbn [mbind option_bind].
    split; [by rewrite fmap_cons, IH1|].
    intros s' n' [[= -> ->]|Hin]%elem_of_cons; [done|by apply IH2].
Qed.

Lemma elem_of_rows df m :
  m ∈ df → Items.selling_sku_id (item m) ∈ selling_sku_id <$> rows df.
Proof.
  intros Hm. unfold rows. rewrite <-list_fmap_compose.
  by apply (list_elem_of_fmap_2 (selling_sku_id ∘ as_row)).
Qed.

Lemma rows_dated df :
  Forall (λ m, is_Some (order m)) df → Forall has_month (rows df).
Proof.
  intros Hall. unfold rows. apply Forall_fmap. eapply Forall_impl; [exact Hall|].
  intros m [o Ho]. unfold has_month. simpl. rewrite Ho. by eexists.
Qed.

(** With a line that has an order and a line that has none, line 190
    raises. *)
Lemma streaks_rows_mixed df m1 m2 :
  m1 ∈ df → order m1 = None → m2 ∈ df → is_Some (order m2) →
  streaks (rows df) = None.
Proof.
  intros H1 Hn H2 [o Ho].
  destruct (streaks_cases (rows df)) as [Hall|[(_ & Hnone & _)|(_ & _ & Hs)]];
    [| |done].
  - rewrite Forall_forall in Hall.
    destruct (Hall (as_row m1)) as [p Hp]; [by apply list_elem_of_fmap_2|].
    simpl in Hp. by rewrite Hn in Hp.
  - rewrite Forall_forall in Hnone.
    assert (order_month (as_row m2) = None) as Hp
      by (by apply Hnone, list_elem_of_fmap_2).
    simpl in Hp. by rewrite Ho in Hp.
Qed.

End ProductTable.

(** X8.  When every line has an order, whatever the sidebar selection,
    the product table is produced (nothing raises) and the merge of line
    203 drops no product: the table is [sku_stats] of the filtered rows,
    one row per sku that occurs in them, each with the streak that the
    sku has over all rows, filtered or not; the int64 sum of its revenue
    column is the int64 sum of the subtotals of the filtered rows. *)
Theorem product_table_complete {K : Type} `{!Dtype K}
    (selected_platforms : list string)
    (start_month end_month : string) (df_merged : list (Merged K)) :
  Forall (λ m, is_Some (order m)) df_merged →
  let filtered :=
    df_merged_filtered selected_platforms start_month end_month df_merged in
  ∃ table, product_table df_merged filtered = Some table ∧
    table.*1 = sku_stats filtered ∧
    NoDup (stat_sku <$> table.*1) ∧
    (∀ sku, sku ∈ stat_sku <$> table.*1 ↔
            ∃ m, m ∈ filtered ∧ Items.selling_sku_id (item m) = sku) ∧
    (∀ s n, (s, n) ∈ table →
       n = streak_spec (period_total (rows df_merged) (stat_sku s))
                       (periods (rows df_merged))) ∧
    Int64.sum (stat_subtotal <$> table.*1) =
      Int64.sum (Items.subtotal ∘ item <$> filtered).
Proof.
  intros Hall%rows_dated filtered. unfold product_table.
  destruct (streaks_lookup (rows df_merged) Hall) as (d & -> & Hd).
  cbn [mbind option_bind]. eexists. split; [done|].
  destruct (final_product_df_all (sku_stats filtered) d) as [Hfst Hval].
  { intros s Hs. rewrite Hd.
    assert (stat_sku s ∈ stat_sku <$> sku_stats filtered) as Hin
      by (by apply list_elem_of_fmap_2).
    apply elem_of_sku_stats in Hin as (m & Hm & <-).
    apply list_elem_of_filter in Hm as [Hmask Hm].
    rewrite decide_True; [done|]. by apply elem_of_rows. }
  rewrite Hfst. split_and!; [done|apply NoDup_sku_stats| | |].
  - apply elem_of_sku_stats.
  - intros s n Hin. pose proof (Hval s n Hin) as Hs. rewrite Hd in Hs.
    case_decide; [|done]. by injection Hs as <-.
  - apply sku_stats_subtotal.
Qed.

Lemma product_table_complete_witness :
  ∃ table,
    product_table (merge_left sample_items sample_orders)
      (df_merged_filtered ["Shopee"] "2025-01" "2025-02"
         (merge_left sample_items sample_orders)) = Some table ∧
    stat_sku <$> table.*1 = ["001-A"; "002-B"] ∧
    table.*2 = [2; 0].
Proof.
  destruct (product_table_complete ["Shopee"] "2025-01" "2025-02"
              (merge_left sample_items sample_orders))
    as (table & Htable & _).
  { by apply (bool_decide_unpack _). }
  exists table. split; [exact Htable|].
  vm_compute in Htable. injection Htable as <-. by vm_compute.
Defined.

(** ** The pairs and the order of the rows *)

#[global] Instance str_le_antisymm : AntiSymm (=) Str.le.
Proof. intros a b. apply String.leb_antisym. Qed.

Lemma sorted_str_perm (l1 l2 : list string) :
  l1 ≡ₚ l2 → sorted Str.lt l1 = sorted Str.lt l2.
Proof.
  intros Hperm. apply (StronglySorted_unique Str.le); [apply sorted_str_le..|].
  by rewrite !sorted_perm.
Qed.

Lemma order_rows_perm {K : Type} `{!Dtype K} (df1 df2 : DataFrame K) o :
  df1 ≡ₚ df2 → order_rows df1 o ≡ₚ order_rows df2 o.
Proof. unfold order_rows. by intros ->. Qed.

Lemma retained_orders_perm {K : Type} `{!Dtype K} `{!DtypeOrder K}
    (df1 df2 : DataFrame K) :
  df1 ≡ₚ df2 → retained_orders df1 = retained_orders df2.
Proof.
  intros Hperm. apply dtype_sorted_ext; [apply retained_sorted..|].
  intros o. by rewrite !elem_of_retained, (order_rows_perm df1 df2 o Hperm).
Qed.

(** X9.  The pairs do not depend on the order of the rows: two tables
    with the same rows in any order give the same pairs, with the same
    counts, in the same order. *)
Theorem countPairs_row_order {K : Type} `{!Dtype K} `{!DtypeOrder K}
    (topK : nat) (df1 df2 : DataFrame K) :
  df1 ≡ₚ df2 → countPairs topK df1 = countPairs topK df2.
Proof.
  intros Hperm. rewrite !countPairs_unguarded, !pair_counts_all_pairs.
  rewrite (retained_orders_perm df1 df2 Hperm). do 2 f_equal.
  unfold all_pairs. f_equal. rewrite <-!list_fmap_compose.
  apply list_fmap_ext. intros _ o _. simpl. f_equal.
  apply sorted_str_perm. unfold basket_of.
  by rewrite (order_rows_perm df1 df2 o Hperm).
Qed.

Lemma countPairs_row_order_witness :
  countPairs 20 (reverse ex2) = countPairs 20 ex2.
Proof.
  apply (countPairs_row_order 20 (reverse ex2) ex2). apply reverse_Permutation.
Defined.

(** X10.  The pairs shown are distinct, each has been counted at least
    once, and its two skus are on lines of one and the same order, an
    order with at least two lines. *)
Theorem df_pairs_sound {K : Type} `{!Dtype K} `{!DtypeOrder K}
    (topK : nat) (df : DataFrame K) :
  NoDup (countPairs topK df).*1 ∧
  ∀ a b n, ((a, b), n) ∈ countPairs topK df →
    1 ≤ n ∧
    ∃ o, o ∈ retained_orders df ∧ a ∈ basket_of df o ∧ b ∈ basket_of df o.
Proof.
  split.
  - rewrite countPairs_unguarded. unfold most_common.
    rewrite fmap_take. eapply sublist_NoDup; [|apply sublist_take].
    rewrite (sorted_perm count_gt). apply NoDup_keys_pair_counts.
  - intros a b n [Hin Hn]%countPairs_elem. split.
    + apply elem_of_all_pairs in Hin as
        (? & (o & -> & Ho)%list_elem_of_fmap & Hk).
      subst n. apply (list_elem_of_fmap_2 (pairs_in_order df (a, b))) in Ho.
      apply sum_list_with_in with (f := id) in Ho.
      etrans; [|exact Ho]. unfold id, pairs_in_order.
      assert ((a, b) ∈ filter (λ p, p = (a, b))
                (combinations2 (sorted Str.lt (basket_of df o)))) as Hf
        by (by apply list_elem_of_filter).
      destruct (filter _ _); [by apply elem_of_nil in Hf|simpl; lia].
    + apply elem_of_all_pairs in Hin as
        (? & (o & -> & Ho)%list_elem_of_fmap & Hk).
      exists o. split; [done|].
      apply combinations2_elems in Hk as [Ha Hb].
      by rewrite !elem_of_sorted in Ha, Hb.
Qed.

Lemma df_pairs_sound_witness :
  1 ≤ 2 ∧ ∃ o, o ∈ retained_orders ex2 ∧ "X" ∈ basket_of ex2 o ∧ "Y" ∈ basket_of ex2 o.
Proof.
  apply (proj2 (df_pairs_sound 20 ex2) "X" "Y" 2). vm_compute. left.
Defined.

(** ** Revenue: headers against lines *)

Section Revenue.
Context {K : Type} `{!Dtype K}.
Context (selected_platforms : list string) (start_month end_month : string).
Implicit Types (df_items : list (Items.t K)) (df_orders : list (Orders.t K)).

Lemma NoDup_fmap_filter {A B} (f : A → B) (P : A → Prop)
    `{!∀ x, Decision (P x)} (l : list A) :
  NoDup (f <$> l) → NoDup (f <$> filter P l).
Proof.
  induction l as [|x l IH]; [done|].
  rewrite fmap_cons, NoDup_cons. intros [Hx Hnd].
  rewrite filter_cons. case_decide; [|by apply IH].
  rewrite fmap_cons. apply NoDup_cons. split; [|by apply IH].
  rewrite list_elem_of_fmap. intros (y & Hy & [_ Hin]%list_elem_of_filter).
  apply Hx. rewrite Hy. by apply list_elem_of_fmap_2.
Qed.

(** With one row per order, the filtered merged rows are the lines of
    the filtered orders. *)
Lemma filtered_merged_items df_items df_orders :
  NoDup (Orders.order_id <$> df_orders) →
  item <$> df_merged_filtered selected_platforms start_month end_month
             (merge_left df_items df_orders) =
    filter (λ i, Items.order_id i ∈
                 Orders.order_id <$> df_orders_filtered selected_platforms
                                       start_month end_month df_orders)
           df_items.
Proof.
  intros Hnd. unfold df_merged_filtered, merge_left.
  induction df_items as [|i df_items IH]; [done|].
  rewrite bind_cons, filter_app, fmap_app, IH. clear IH.
  rewrite (filter_cons _ i).
  pose proof (filter_key_unique Orders.order_id (Items.order_id i) df_orders Hnd)
    as Hlen.
  destruct (filter (λ o, Orders.order_id o = Items.order_id i) df_orders)
    as [|o [|o' os]] eqn:Hf; [| |simpl in Hlen; lia].
  - rewrite decide_False; [done|].
    intros (o & Hid & [_ Ho]%list_elem_of_filter)%list_elem_of_fmap.
    assert (o ∈ filter (λ o, Orders.order_id o = Items.order_id i) df_orders)
      as Hin by (by apply list_elem_of_filter).
    rewrite Hf in Hin. by apply elem_of_nil in Hin.
  - assert (o ∈ filter (λ o, Orders.order_id o = Items.order_id i) df_orders)
      as [Hid Ho]%list_elem_of_filter by (rewrite Hf; left).
    rewrite fmap_cons, fmap_nil, filter_cons, filter_nil.
    unfold mask_merged at 1. cbn [order].
    destruct (decide (mask_orders selected_platforms start_month end_month o))
      as [Hmask|Hmask].
    + rewrite decide_True; [done|]. apply list_elem_of_fmap. exists o.
      split; [done|]. by apply list_elem_of_filter.
    + rewrite decide_False; [done|].
      intros (o' & Hid' & [Hmask' Ho']%list_elem_of_filter)%list_elem_of_fmap.
      assert (o' ∈ filter (λ o, Orders.order_id o = Items.order_id i) df_orders)
        as Hin by (by apply list_elem_of_filter).
      rewrite Hf in Hin. by apply list_elem_of_singleton in Hin as ->.
Qed.

End Revenue.

(** X11.  When [df_orders] has one row per order and the [total_amount]
    of every order is the int64 sum of the subtotals of its lines, the
    Total Revenue of line 92 is, for every sidebar selection, the int64
    sum of the subtotals of the filtered merged rows, and that is the
    int64 sum of the bars of the category chart.  When moreover no
    subtotal is negative and the subtotals of the filtered rows add up
    within the range of int64, the Total Revenue is the number that the
    bars add up to. *)
Theorem revenue_matches_lines {K : Type} `{!Dtype K}
    (selected_platforms : list string)
    (start_month end_month : string)
    (df_items : list (Items.t K)) (df_orders : list (Orders.t K)) :
  NoDup (Orders.order_id <$> df_orders) →
  (∀ o, o ∈ df_orders →
        Orders.total_amount o =
          Int64.sum (Items.subtotal <$> lines_of df_items o)) →
  let df_merged_filtered :=
    df_merged_filtered selected_platforms start_month end_month
      (merge_left df_items df_orders) in
  total_revenue
    (df_orders_filtered selected_platforms start_month end_month df_orders) =
    Int64.sum (Items.subtotal ∘ item <$> df_merged_filtered) ∧
  total_revenue
    (df_orders_filtered selected_platforms start_month end_month df_orders) =
    Int64.sum (cat_sales df_merged_filtered).*2 ∧
  (Forall (λ i, (0 ≤ Items.subtotal i)%Z) df_items →
   Int64.in_range (exact_sum (Items.subtotal ∘ item <$> df_merged_filtered)) →
   total_revenue
     (df_orders_filtered selected_platforms start_month end_month df_orders) =
     exact_sum (cat_sales df_merged_filtered).*2).
Proof.
  intros Hnd Htot merged.
  assert (total_revenue
            (df_orders_filtered selected_platforms start_month end_month df_orders)
          = Int64.sum (Items.subtotal ∘ item <$> merged)) as Heq.
  { unfold merged. rewrite list_fmap_compose, filtered_merged_items by done.
    set (F := df_orders_filtered selected_platforms start_month end_month df_orders).
    set (L := filter (λ i, Items.order_id i ∈ Orders.order_id <$> F) df_items).
    rewrite <-(group_sums_total Items.order_id Items.subtotal
                 (Orders.order_id <$> F) L).
    - unfold total_revenue. f_equal. rewrite <-list_fmap_compose.
      apply list_fmap_ext. intros _ o Ho%list_elem_of_lookup_2. simpl.
      rewrite Htot by (by apply list_elem_of_filter in Ho as [_ ?]).
      f_equal. f_equal. unfold lines_of, L. rewrite list_filter_filter.
      apply filter_ext_in. intros i _. split; [|tauto]. intros Hid.
      split; [done|]. rewrite Hid. by apply list_elem_of_fmap_2.
    - by apply NoDup_fmap_filter.
    - intros i [Hi _]%list_elem_of_filter. done. }
  split; [done|]. split; [by rewrite Heq, cat_sales_sum|].
  intros Hnonneg Hrange. rewrite Heq, cat_sales_no_overflow; [by apply sum_exact| |done].
  apply Forall_forall. intros m [_ [Hm _]%elem_of_merge_left]%list_elem_of_filter.
  rewrite Forall_forall in Hnonneg. by apply Hnonneg.
Qed.

Lemma revenue_matches_lines_witness :
  total_revenue (df_orders_filtered ["Shopee"] "2025-01" "2025-02" sample_orders)
  = Int64.sum (cat_sales (df_merged_filtered ["Shopee"] "2025-01" "2025-02"
                        (merge_left sample_items sample_orders))).*2.
Proof.
  apply (revenue_matches_lines ["Shopee"] "2025-01" "2025-02"
           sample_items sample_orders).
  - by apply (bool_decide_unpack _).
  - apply Forall_forall. by apply (bool_decide_unpack _).
Defined.


(** X17.  A line whose order is missing goes through the left merge of
    line 52 with NaN for its month.  The sidebar filter never lets it
    pass, so that tabs 1 and 3 do not see it; but tab 2 reads all rows,
    and as soon as another line has its order, [latest_months] holds a
    month and NaN and line 190 raises: the product table is not
    produced, whatever the selection. *)
Theorem orphan_line_raises {K : Type} `{!Dtype K}
    (df_items : list (Items.t K)) (df_orders : list (Orders.t K))
    (i1 i2 : Items.t K) (o2 : Orders.t K) :
  i1 ∈ df_items →
  (∀ o, o ∈ df_orders → Orders.order_id o ≠ Items.order_id i1) →
  i2 ∈ df_items → o2 ∈ df_orders → Orders.order_id o2 = Items.order_id i2 →
  let df_merged := merge_left df_items df_orders in
  mkMerged i1 None ∈ df_merged ∧
  latest_months (rows df_merged) = None ∧
  (∀ df_merged_filtered, product_table df_merged df_merged_filtered = None) ∧
  (∀ selected_platforms start_month end_month,
     Forall (λ m, is_Some (order m))
            (df_merged_filtered selected_platforms start_month end_month
               df_merged)).
Proof.
  intros Hi1 Hno Hi2 Ho2 Hid df_merged.
  assert (mkMerged i1 None ∈ df_merged) as H1
    by (by apply elem_of_merge_left).
  assert (mkMerged i2 (Some o2) ∈ df_merged) as H2
    by (by apply elem_of_merge_left).
  split_and!.
  - done.
  - apply (latest_months_mixed _ (as_row (mkMerged i1 None))
                                 (as_row (mkMerged i2 (Some o2))));
      [by apply list_elem_of_fmap_2|done|by apply list_elem_of_fmap_2|].
    by eexists.
  - intros filtered. unfold product_table.
    by rewrite (streaks_rows_mixed df_merged _ _ H1 eq_refl H2 (mk_is_Some _ _ eq_refl)).
  - intros sel s e. apply Forall_forall.
    intros m [Hmask _]%list_elem_of_filter. unfold mask_merged in Hmask.
    destruct (order m); [by eexists|done].
Qed.

Lemma orphan_line_raises_witness :
  product_table (merge_left sample_items_orphan sample_orders)
    (df_merged_filtered ["Shopee"] "2025-01" "2025-02"
       (merge_left sample_items_orphan sample_orders)) = None.
Proof.
  refine (proj1 (proj2 (proj2
    (orphan_line_raises sample_items_orphan sample_orders
       (Items.mk "o3" "002-B" 1 4 4) (Items.mk "o1" "001-A" 1 5 5)
       (Orders.mk "o1" "Shopee" (mkTimestamp 2025 1 15) 8) _ _ _ _ _))) _).
  - vm_compute. do 3 right. left.
  - intros o Ho. vm_compute in Ho.
    repeat (apply elem_of_cons in Ho as [->|Ho]; [by vm_compute|]).
    by apply elem_of_nil in Ho.
  - vm_compute. left.
  - vm_compute. left.
  - reflexivity.
Defined.

(** ** Importing orders *)

Example sample_upload :
  Upload.match_skus_and_upload sample_clean sample_bindings =
    Some ([ Upload.mkHeader "5764332211" "Tiktok" (mkTimestamp 2025 1 1)
              (Some 3200%float);
            Upload.mkHeader "5764332299" "Tiktok" (mkTimestamp 2025 1 1)
              (Some 0%float) ],
          [ Upload.mkLine "5764332211" (Some "001-IRC-MAXING") "sku-1" 1 1400%float 1400%float;
            Upload.mkLine "5764332211" (Some "IRC-SCT-FORZA") "sku-2" 2 900%float 1800%float;
            Upload.mkLine "5764332299" (Some "IRC-SCT-FORZA") "sku-2" 0 900%float 0%float ]).
Proof. reflexivity. Qed.

(** The product of line 98 is a float64 product: 0.1 times 3 is not
    0.3. *)
Example float_subtotal :
  float_mul 0.1%float (float_of_int 3) = 0.30000000000000004%float.
Proof. reflexivity. Qed.

Section UploadFacts.
Import Upload.
Context {float64 : Type} `{!Float64 float64}.
Implicit Types (df_clean : list (Clean float64)) (df_bindings : list Binding)
  (rows : list (Priced float64)) (l : list (Header float64)).

Lemma filter_fmap_comm {A B} (f : A → B) (P : B → Prop)
    `{!∀ y, Decision (P y)} (xs : list A) :
  filter P (f <$> xs) = f <$> filter (λ x, P (f x)) xs.
Proof.
  induction xs as [|x xs IH]; [done|].
  rewrite fmap_cons, !filter_cons, IH. by case_decide.
Qed.

Lemma filter_keyed {V} (g : string → V) (keys : list string) (k : string) :
  NoDup keys →
  filter (λ t, t.1 = k) ((λ k', (k', g k')) <$> keys) =
    if decide (k ∈ keys) then [(k, g k)] else [].
Proof.
  induction 1 as [|k' keys Hk' Hnd IH]; [done|].
  rewrite fmap_cons, filter_cons, IH. cbn [fst].
  destruct (decide (k' = k)) as [->|Hne].
  - destruct (decide (k ∈ keys)); [done|]. by rewrite decide_True by left.
  - destruct (decide (k ∈ keys)).
    + by rewrite decide_True by (by right).
    + by rewrite decide_False by (rewrite elem_of_cons; naive_solver).
Qed.

Lemma with_total_keyed rows (g : string → float64) (keys : list string) :
  NoDup keys → (∀ r, r ∈ rows → priced_order_id r ∈ keys) →
  with_total rows ((λ k, (k, g k)) <$> keys) =
    (λ r, (r, Some (g (priced_order_id r)))) <$> rows.
Proof.
  intros Hnd. unfold with_total.
  induction rows as [|r rows IH]; intros Hin; [done|].
  rewrite bind_cons, fmap_cons, IH by (intros; apply Hin; by right).
  by rewrite (filter_keyed _ _ _ Hnd), decide_True by (apply Hin; left).
Qed.

(** Every row finds the one total of its order. *)
Lemma with_total_order_totals rows :
  with_total rows (order_totals rows) =
    (λ r, (r, Some (float_sum (subtotal <$>
                      filter (λ r', priced_order_id r' = priced_order_id r) rows))))
      <$> rows.
Proof.
  unfold order_totals.
  rewrite (with_total_keyed rows
             (λ k, float_sum (subtotal <$> filter (λ r', priced_order_id r' = k) rows))).
  - done.
  - apply NoDup_sorted, NoDup_unique.
  - intros r Hr. rewrite elem_of_sorted, elem_of_unique.
    by apply list_elem_of_fmap_2.
Qed.

Lemma elem_of_drop_duplicates l h :
  h ∈ drop_duplicates l → h ∈ l.
Proof.
  revert h. induction l as [|h' l IH]; intros h; [done|]. cbn [drop_duplicates].
  intros [->|[_ Hin]%list_elem_of_filter]%elem_of_cons; [left|right; by apply IH].
Qed.

Lemma drop_duplicates_ids l k :
  k ∈ header_order_id <$> drop_duplicates l ↔ k ∈ header_order_id <$> l.
Proof.
  induction l as [|h l IH]; [done|]. cbn [drop_duplicates].
  rewrite !fmap_cons, !elem_of_cons, <-IH, !list_elem_of_fmap.
  setoid_rewrite list_elem_of_filter.
  destruct (decide (k = header_order_id h)); naive_solver.
Qed.

Lemma NoDup_drop_duplicates l : NoDup (header_order_id <$> drop_duplicates l).
Proof.
  induction l as [|h l IH]; [constructor|]. cbn [drop_duplicates].
  rewrite fmap_cons. apply NoDup_cons. split.
  - rewrite list_elem_of_fmap. intros (h' & Hid & [Hne _]%list_elem_of_filter).
    by apply Hne.
  - by apply NoDup_fmap_filter.
Qed.

End UploadFacts.

Section UploadTheorems.
Import Upload.
Context {float64 : Type} `{!Float64 float64}.
Implicit Types (df_clean : list (Clean float64)) (df_bindings : list Binding).

Lemma elem_of_match_skus m df_clean df_bindings :
  m ∈ match_skus df_clean df_bindings ↔
    clean m ∈ df_clean ∧
    ((sku m = None ∧
      ∀ b, b ∈ df_bindings →
           platform_external_sku b ≠ platform_sku_original (clean m)) ∨
     ∃ b, b ∈ df_bindings ∧
          platform_external_sku b = platform_sku_original (clean m) ∧
          sku m = selling_sku_id b).
Proof.
  unfold match_skus. rewrite list_elem_of_bind. split.
  - intros (c & Hm & Hc).
    destruct (filter _ df_bindings) as [|b1 bs] eqn:Hf.
    + apply list_elem_of_singleton in Hm as ->. split; [done|]. left.
      split; [done|]. intros b Hb Hext.
      assert (b ∈ filter (λ b, platform_external_sku b = platform_sku_original c)
                         df_bindings) as Hin by (by apply list_elem_of_filter).
      rewrite Hf in Hin. by apply elem_of_nil in Hin.
    + apply list_elem_of_fmap in Hm as (b & -> & Hb). split; [done|]. right.
      rewrite <-Hf in Hb. apply list_elem_of_filter in Hb as [Hext Hb].
      by exists b.
  - destruct m as [c s]. cbn [clean sku].
    intros [Hc [[-> Hno]|(b & Hb & Hext & ->)]]; exists c; (split; [|done]).
    + destruct (filter _ df_bindings) as [|b1 bs] eqn:Hf; [left|].
      assert (b1 ∈ filter (λ b, platform_external_sku b = platform_sku_original c)
                          df_bindings) as [Hext Hb1]%list_elem_of_filter
        by (rewrite Hf; left).
      by destruct (Hno b1).
    + assert (b ∈ filter (λ b, platform_external_sku b = platform_sku_original c)
                         df_bindings) as Hin by (by apply list_elem_of_filter).
      destruct (filter _ df_bindings) as [|b1 bs]; [by apply elem_of_nil in Hin|].
      by apply (list_elem_of_fmap_2 (λ b, mkMatched c (selling_sku_id b)) (b1 :: bs)).
Qed.

Lemma upload_some df_clean df_bindings orders_data items_data :
  match_skus_and_upload df_clean df_bindings = Some (orders_data, items_data) →
  let rows := with_subtotal <$> match_skus df_clean df_bindings in
  let totalled := λ r,
    (r, Some (float_sum (subtotal <$>
                filter (λ r', priced_order_id r' = priced_order_id r) rows))) in
  unmapped (match_skus df_clean df_bindings) = [] ∧
  orders_data = drop_duplicates (header ∘ totalled <$> rows) ∧
  items_data = line ∘ totalled <$> rows.
Proof.
  unfold match_skus_and_upload. case_decide as Hun; [|done].
  rewrite with_total_order_totals, <-!list_fmap_compose.
  by intros [= <- <-].
Qed.

End UploadTheorems.

(** X12.  The upload is refused before anything is written exactly when
    some row of the file has a platform sku that no binding maps, or
    that a binding maps to no sku. *)
Theorem upload_refused {float64 : Type} `{!Float64 float64}
    (df_clean : list (Upload.Clean float64))
    (df_bindings : list Upload.Binding) :
  Upload.match_skus_and_upload df_clean df_bindings = None ↔
    ∃ c, c ∈ df_clean ∧
      ((∀ b, b ∈ df_bindings →
             Upload.platform_external_sku b ≠ Upload.platform_sku_original c) ∨
       (∃ b, b ∈ df_bindings ∧
             Upload.platform_external_sku b = Upload.platform_sku_original c ∧
             Upload.selling_sku_id b = None)).
Proof.
  unfold Upload.match_skus_and_upload, Upload.unmapped.
  case_decide as Hun; split; try done.
  - intros (c & Hc & Hbad). exfalso.
    assert (∃ m, m ∈ Upload.match_skus df_clean df_bindings ∧ Upload.sku m = None)
      as (m & Hm & Hsku).
    { destruct Hbad as [Hno|(b & Hb & Hext & Hnull)].
      - exists (Upload.mkMatched c None). split; [|done].
        apply elem_of_match_skus. split; [done|]. by left.
      - exists (Upload.mkMatched c None). split; [|done].
        apply elem_of_match_skus. split; [done|]. right. by exists b. }
    assert (m ∈ filter (λ m, Upload.sku m = None)
                       (Upload.match_skus df_clean df_bindings)) as Hin
      by (by apply list_elem_of_filter).
    rewrite Hun in Hin. by apply elem_of_nil in Hin.
  - intros _.
    destruct (filter _ (Upload.match_skus df_clean df_bindings)) as [|m ms] eqn:Hf;
      [done|].
    assert (m ∈ filter (λ m, Upload.sku m = None)
                       (Upload.match_skus df_clean df_bindings))
      as [Hsku [Hc Hm]%elem_of_match_skus]%list_elem_of_filter
      by (rewrite Hf; left).
    exists (Upload.clean m). split; [done|].
    destruct Hm as [[_ Hno]|(b & Hb & Hext & Hs)]; [by left|].
    right. exists b. split_and!; [done..|]. by rewrite <-Hs.
Qed.

(** X13.  An accepted upload writes consistent tables: no two headers
    share an [order_id]; the [total_amount] of a header is pandas' sum of
    the float64 subtotals of the lines written for its order, taken in
    the order of the lines; every line has a header, a sku, and as
    subtotal the float64 product of its unit price and its quantity. *)
Theorem upload_consistent {float64 : Type} `{!Float64 float64}
    (df_clean : list (Upload.Clean float64))
    (df_bindings : list Upload.Binding)
    (orders_data : list (Upload.Header float64))
    (items_data : list (Upload.Line float64)) :
  Upload.match_skus_and_upload df_clean df_bindings =
    Some (orders_data, items_data) →
  NoDup (Upload.header_order_id <$> orders_data) ∧
  (∀ h, h ∈ orders_data →
     Upload.total_amount h =
       Some (float_sum (Upload.line_subtotal <$>
                      filter (λ l, Upload.line_order_id l = Upload.header_order_id h)
                             items_data))) ∧
  (∀ l, l ∈ items_data →
     (∃ h, h ∈ orders_data ∧ Upload.header_order_id h = Upload.line_order_id l) ∧
     is_Some (Upload.line_selling_sku_id l) ∧
     Upload.line_subtotal l =
       float_mul (Upload.line_unit_price l)
                 (float_of_int (Upload.line_quantity l))).
Proof.
  intros (Hun & -> & ->)%upload_some.
  remember (Upload.with_subtotal <$> Upload.match_skus df_clean df_bindings)
    as rows eqn:Hrows.
  split_and!.
  - apply NoDup_drop_duplicates.
  - intros h (r & -> & Hr)%elem_of_drop_duplicates%list_elem_of_fmap.
    cbn [Upload.total_amount Upload.header_order_id Upload.header compose snd fst].
    f_equal. by rewrite filter_fmap_comm, <-list_fmap_compose.
  - intros l (r & -> & Hr)%list_elem_of_fmap. split_and!.
    + match goal with
      | |- ∃ h, h ∈ Upload.drop_duplicates ?hs ∧ _ =>
          assert (Upload.priced_order_id r ∈
                  Upload.header_order_id <$> Upload.drop_duplicates hs) as Hin
      end.
      { apply drop_duplicates_ids. rewrite <-list_fmap_compose.
        by apply (list_elem_of_fmap_2 _ _ r). }
      apply list_elem_of_fmap in Hin as (h & Hid & Hh). by exists h.
    + subst rows. apply list_elem_of_fmap in Hr as (m & -> & Hm).
      cbn. destruct (Upload.sku m) eqn:Hsku; [done|].
      assert (m ∈ Upload.unmapped (Upload.match_skus df_clean df_bindings)) as Hin
        by (by apply list_elem_of_filter).
      rewrite Hun in Hin. by apply elem_of_nil in Hin.
    + subst rows. apply list_elem_of_fmap in Hr as (m & -> & Hm). done.
Qed.

Lemma upload_refused_witness :
  Upload.match_skus_and_upload sample_clean [] = None.
Proof.
  apply upload_refused. eexists. split; [left|].
  left. by intros b ?%elem_of_nil.
Defined.

Lemma upload_consistent_witness :
  NoDup ["5764332211"; "5764332299"].
Proof.
  refine (proj1 (upload_consistent sample_clean sample_bindings
                   [ Upload.mkHeader "5764332211" "Tiktok" (mkTimestamp 2025 1 1)
                       (Some 3200%float);
                     Upload.mkHeader "5764332299" "Tiktok" (mkTimestamp 2025 1 1)
                       (Some 0%float) ]
                   _ _)).
  reflexivity.
Defined.

Section UploadLines.
Import Upload.
Context {float64 : Type} `{!Float64 float64}.

Lemma unique_twice {A} `{EqDecision A} (x : A) (l : list A) :
  unique (x :: x :: l) = unique (x :: l).
Proof.
  cbn [unique]. rewrite filter_cons_False by (intros Hne; by apply Hne).
  f_equal. apply list_filter_filter_l. done.
Qed.

Lemma unique_repeat {A} `{EqDecision A} (x : A) n (l : list A) :
  unique (replicate (S n) x ++ l) = unique (x :: l).
Proof.
  induction n as [|n IH]; [done|].
  change (unique (x :: x :: (replicate n x ++ l)) = unique (x :: l)).
  rewrite unique_twice. exact IH.
Qed.

Lemma unique_cons_congr {A} `{EqDecision A} (x : A) (l1 l2 : list A) :
  unique l1 = unique l2 → unique (x :: l1) = unique (x :: l2).
Proof. cbn [unique]. by intros ->. Qed.

Lemma drop_duplicates_unique (l : list (Header float64)) :
  header_order_id <$> drop_duplicates l = unique (header_order_id <$> l).
Proof.
  induction l as [|h l IH]; [done|]. cbn [drop_duplicates].
  rewrite !fmap_cons. cbn [unique]. f_equal. rewrite <-IH.
  by rewrite filter_fmap_comm.
Qed.

(** The rows that the first merge makes of one row of the file. *)
Lemma match_skus_ids (df_clean : list (Clean float64)) df_bindings :
  unique (order_id ∘ clean <$> match_skus df_clean df_bindings) =
    unique (order_id <$> df_clean).
Proof.
  unfold match_skus. induction df_clean as [|c df_clean IH]; [done|].
  rewrite bind_cons, fmap_app, fmap_cons.
  assert (∃ n, order_id ∘ clean <$>
                 match filter (λ b, platform_external_sku b = platform_sku_original c)
                              df_bindings with
                 | [] => [mkMatched c None]
                 | bindings => (λ b, mkMatched c (selling_sku_id b)) <$> bindings
                 end = replicate (S n) (order_id c)) as [n ->].
  { destruct (filter _ df_bindings) as [|b bs]; [by exists 0|].
    exists (length bs). rewrite <-list_fmap_compose. cbn [replicate].
    rewrite fmap_cons. f_equal. clear. induction bs as [|b' bs IH]; [done|].
    rewrite fmap_cons. cbn [length replicate]. by rewrite IH. }
  rewrite unique_repeat. by apply unique_cons_congr.
Qed.

End UploadLines.

(** X14.  An accepted upload writes one header per order of the file, in
    the order in which the orders first appear, and at least one line per
    row of the file; when no two bindings share a platform sku it writes
    exactly one line per row, in the order of the file. *)
Theorem upload_lines {float64 : Type} `{!Float64 float64}
    (df_clean : list (Upload.Clean float64))
    (df_bindings : list Upload.Binding)
    (orders_data : list (Upload.Header float64))
    (items_data : list (Upload.Line float64)) :
  Upload.match_skus_and_upload df_clean df_bindings =
    Some (orders_data, items_data) →
  Upload.header_order_id <$> orders_data = unique (Upload.order_id <$> df_clean) ∧
  length df_clean ≤ length items_data ∧
  (NoDup (Upload.platform_external_sku <$> df_bindings) →
   (λ l, (Upload.line_order_id l, Upload.line_platform_sku_original l))
     <$> items_data =
   (λ c, (Upload.order_id c, Upload.platform_sku_original c)) <$> df_clean).
Proof.
  intros (Hun & -> & ->)%upload_some. split_and!.
  - rewrite drop_duplicates_unique, <-!list_fmap_compose.
    apply match_skus_ids.
  - rewrite !length_fmap. unfold Upload.match_skus. clear Hun.
    induction df_clean as [|c df_clean IH]; [done|].
    rewrite bind_cons, length_app.
    destruct (filter _ df_bindings); [|rewrite length_fmap]; cbn [length]; lia.
  - intros Hnd. rewrite <-!list_fmap_compose.
    rewrite (list_fmap_ext _
      (λ m, (Upload.order_id (Upload.clean m),
             Upload.platform_sku_original (Upload.clean m)))) by done.
    unfold Upload.match_skus. clear Hun.
    induction df_clean as [|c df_clean IH]; [done|].
    rewrite bind_cons, fmap_app, IH, fmap_cons.
    pose proof (filter_key_unique Upload.platform_external_sku
                  (Upload.platform_sku_original c) df_bindings Hnd) as Hlen.
    destruct (filter _ df_bindings) as [|b [|b' bs]]; simpl in *; [done..|lia].
Qed.

Lemma upload_lines_witness :
  [( "5764332211", "sku-1"); ("5764332211", "sku-2"); ("5764332299", "sku-2")] =
    (λ c, (Upload.order_id c, Upload.platform_sku_original c)) <$> sample_clean.
Proof.
  refine (proj2 (proj2 (upload_lines sample_clean sample_bindings _
    [ Upload.mkLine "5764332211" (Some "001-IRC-MAXING") "sku-1" 1 1400%float 1400%float;
      Upload.mkLine "5764332211" (Some "IRC-SCT-FORZA") "sku-2" 2 900%float 1800%float;
      Upload.mkLine "5764332299" (Some "IRC-SCT-FORZA") "sku-2" 0 900%float 0%float ] _)) _).
  - reflexivity.
  - by apply (bool_decide_unpack _).
Defined.

(** ** The trend and the platform share *)

Lemma keyed_fst {K V} (g : K → V) (keys : list K) :
  ((λ k, (k, g k)) <$> keys).*1 = keys.
Proof.
  rewrite <-list_fmap_compose. rewrite <-(list_fmap_id keys) at 2.
  by apply list_fmap_ext.
Qed.

(** X15.  The points of the revenue trend, one per month and platform
    with an order in the selection, and the slices of the platform share
    by sales, one per such platform, each have the Total Revenue of line
    92 as their int64 sum.  When no order has a negative total and the
    totals add up within the range of int64, the points and the slices
    each add up, as numbers, to the Total Revenue. *)
Theorem trend_and_share_totals {K : Type} `{!Dtype K}
    (df_orders_filtered : list (Orders.t K)) :
  (NoDup (sales_by_month df_orders_filtered).*1 ∧
   (∀ k, k ∈ (sales_by_month df_orders_filtered).*1 ↔
         ∃ o, o ∈ df_orders_filtered ∧ month_platform o = k) ∧
   Int64.sum (sales_by_month df_orders_filtered).*2 =
     total_revenue df_orders_filtered) ∧
  (NoDup (platform_data df_orders_filtered).*1 ∧
   (∀ p, p ∈ (platform_data df_orders_filtered).*1 ↔
         ∃ o, o ∈ df_orders_filtered ∧ Orders.platform_name o = p) ∧
   Int64.sum (platform_data df_orders_filtered).*2 =
     total_revenue df_orders_filtered) ∧
  (Forall (λ o, (0 ≤ Orders.total_amount o)%Z) df_orders_filtered →
   Int64.in_range (exact_sum (Orders.total_amount <$> df_orders_filtered)) →
   exact_sum (sales_by_month df_orders_filtered).*2 =
     total_revenue df_orders_filtered ∧
   exact_sum (platform_data df_orders_filtered).*2 =
     total_revenue df_orders_filtered).
Proof.
  unfold sales_by_month, platform_data, total_revenue.
  rewrite !keyed_fst. split; [|split]; [split_and!..|].
  - apply NoDup_sorted, NoDup_unique.
  - intros k. rewrite elem_of_sorted, elem_of_unique, list_elem_of_fmap.
    naive_solver.
  - rewrite <-list_fmap_compose.
    rewrite <-(group_sums_total month_platform Orders.total_amount
                 (sorted key_lt (unique (month_platform <$> df_orders_filtered)))
                 df_orders_filtered); [done|apply NoDup_sorted, NoDup_unique|].
    intros o Ho. rewrite elem_of_sorted, elem_of_unique.
    by apply list_elem_of_fmap_2.
  - apply NoDup_sorted, NoDup_unique.
  - intros p. rewrite elem_of_sorted, elem_of_unique, list_elem_of_fmap.
    naive_solver.
  - rewrite <-list_fmap_compose.
    rewrite <-(group_sums_total Orders.platform_name Orders.total_amount
                 (sorted Str.lt (unique (Orders.platform_name <$> df_orders_filtered)))
                 df_orders_filtered); [done|apply NoDup_sorted, NoDup_unique|].
    intros o Ho. rewrite elem_of_sorted, elem_of_unique.
    by apply list_elem_of_fmap_2.
  - intros Hnonneg Hrange. rewrite <-!list_fmap_compose.
    destruct (group_sums_no_overflow month_platform Orders.total_amount
                (sorted key_lt (unique (month_platform <$> df_orders_filtered)))
                df_orders_filtered) as [Hsum Hmonths]; [| |done..| ].
    { apply NoDup_sorted, NoDup_unique. }
    { intros o Ho. rewrite elem_of_sorted, elem_of_unique.
      by apply list_elem_of_fmap_2. }
    destruct (group_sums_no_overflow Orders.platform_name Orders.total_amount
                (sorted Str.lt (unique (Orders.platform_name <$> df_orders_filtered)))
                df_orders_filtered) as [_ Hplatforms]; [| |done..| ].
    { apply NoDup_sorted, NoDup_unique. }
    { intros o Ho. rewrite elem_of_sorted, elem_of_unique.
      by apply list_elem_of_fmap_2. }
    rewrite Hsum. split; [exact Hmonths|exact Hplatforms].
Qed.

Lemma trend_and_share_totals_witness :
  exact_sum (sales_by_month sample_orders).*2 = 10%Z ∧
  exact_sum (platform_data sample_orders).*2 = 10%Z.
Proof.
  destruct (proj2 (proj2 (trend_and_share_totals sample_orders))) as [-> ->].
  - repeat constructor; by vm_compute.
  - by vm_compute.
  - split; reflexivity.
Defined.

Example sample_sales_by_month :
  sales_by_month sample_orders =
    [(("2025-01", "Shopee"), 8%Z); (("2025-02", "Lazada"), 2%Z)].
Proof. reflexivity. Qed.

(** ** Reading an export *)

Lemma getitem_Some {V} (row : Series V) (label : string) (v : V) :
  getitem row label = Some v → (label, v) ∈ row.
Proof.
  induction row as [|[l v'] row IH]; [done|]. cbn [getitem fst snd].
  case_decide as Hl; [intros [= ->]; subst l; left|right; by apply IH].
Qed.

Lemma column_inr df col cells :
  column df col = inr cells → (col, cells) ∈ df.
Proof.
  unfold column. destruct (getitem df col) as [c|] eqn:Hc; [|done].
  intros [= <-]. by apply getitem_Some.
Qed.

(** [process_tiktok] returns a table only for an upload that has
    the columns 'Order ID', 'Created Time', 'SKU ID', 'Quantity' and 'SKU
    Unit Original Price', and [process_lazada] only for one that has
    'orderNumber', 'createTime', 'lazadaSku' and 'unitPrice'; the ids,
    skus and prices of the result are these columns, unchanged, and every
    Lazada row gets the quantity 1. *)
Lemma process_columns (to_datetime : string → option Timestamp)
    (df : RawFrame) (out : CleanFrame) :
  (process_tiktok to_datetime df = inr out →
   ("Order ID", clean_order_id out) ∈ df ∧
   (∃ created, ("Created Time", created) ∈ df ∧
               mapM to_datetime created = Some (clean_order_date out)) ∧
   ("SKU ID", clean_platform_sku_original out) ∈ df ∧
   (∃ quantity, ("Quantity", quantity) ∈ df ∧ clean_quantity out = inl quantity) ∧
   ("SKU Unit Original Price", clean_unit_price out) ∈ df ∧
   clean_platform out = "Tiktok") ∧
  (process_lazada to_datetime df = inr out →
   ("orderNumber", clean_order_id out) ∈ df ∧
   (∃ created, ("createTime", created) ∈ df ∧
               mapM to_datetime created = Some (clean_order_date out)) ∧
   ("lazadaSku", clean_platform_sku_original out) ∈ df ∧
   clean_quantity out = inr 1%Z ∧
   ("unitPrice", clean_unit_price out) ∈ df ∧
   clean_platform out = "Lazada").
Proof.
  split.
  - unfold process_tiktok, to_datetimes.
    destruct (column df "Order ID") as [|c1] eqn:H1; [done|].
    destruct (column df "Created Time") as [|c2] eqn:H2; [done|].
    destruct (mapM to_datetime c2) as [dates|] eqn:Hd; [|done].
    destruct (column df "SKU ID") as [|c3] eqn:H3; [done|].
    destruct (column df "Quantity") as [|c4] eqn:H4; [done|].
    destruct (column df "SKU Unit Original Price") as [|c5] eqn:H5; [done|].
    intros [= <-]. cbn. split_and!; eauto using column_inr.
  - unfold process_lazada, to_datetimes.
    destruct (column df "orderNumber") as [|c1] eqn:H1; [done|].
    destruct (column df "createTime") as [|c2] eqn:H2; [done|].
    destruct (mapM to_datetime c2) as [dates|] eqn:Hd; [|done].
    destruct (column df "lazadaSku") as [|c3] eqn:H3; [done|].
    destruct (column df "unitPrice") as [|c4] eqn:H4; [done|].
    intros [= <-]. cbn. split_and!; eauto using column_inr.
Qed.

(** X16.  The template that [get_sample_file] offers for a platform is
    not accepted by the processing function of that platform: it has a
    'Seller SKU' (TikTok) or 'sellerSku' (Lazada) column where line 48
    reads 'SKU ID' and line 59 reads 'lazadaSku', so that processing it
    raises [KeyError], unless [to_datetime] has already raised. *)
Theorem template_rejected (to_datetime : string → option Timestamp) :
  (∀ df, get_sample_file "TikTok" = Some df →
     process_tiktok to_datetime df = inl (KeyError "SKU ID") ∨
     process_tiktok to_datetime df = inl ValueError) ∧
  (∀ df, get_sample_file "Lazada" = Some df →
     process_lazada to_datetime df = inl (KeyError "lazadaSku") ∨
     process_lazada to_datetime df = inl ValueError).
Proof.
  split; intros df [= <-].
  - unfold process_tiktok, to_datetimes.
    change (column _ "Order ID") with
      (inr ["5764332211"; "5764332299"] : Raised + list string).
    change (column _ "Created Time") with
      (inr ["01/01/2025 10:00:00"; "01/01/2025 12:00:00"] : Raised + list string).
    change (column _ "SKU ID") with (inl (KeyError "SKU ID") : Raised + list string).
    cbv iota beta. destruct (mapM to_datetime _); auto.
  - unfold process_lazada, to_datetimes.
    change (column _ "orderNumber") with
      (inr ["3957221001"; "3957221002"] : Raised + list string).
    change (column _ "createTime") with
      (inr ["01 Jan 2025 10:00"; "02 Jan 2025 14:30"] : Raised + list string).
    change (column _ "lazadaSku") with
      (inl (KeyError "lazadaSku") : Raised + list string).
    cbv iota beta. destruct (mapM to_datetime _); auto.
Qed.

Lemma template_rejected_witness :
  process_tiktok (λ _, Some (mkTimestamp 2025 1 1))
    [ ("Order ID", ["5764332211"; "5764332299"]);
      ("Created Time", ["01/01/2025 10:00:00"; "01/01/2025 12:00:00"]);
      ("Seller SKU", ["001-IRC-MAXING-TT-27517-003"; "IRC-SCT-FORZA"]);
      ("Quantity", ["1"; "2"]);
      ("SKU Unit Original Price", ["1400.0"; "900.0"]) ]
  = inl (KeyError "SKU ID").
Proof.
  destruct (proj1 (template_rejected (λ _, Some (mkTimestamp 2025 1 1))) _ eq_refl)
    as [H|H]; [exact H|discriminate H].
Defined.
